(** * change_zip_ext.py: a shallow embedding and its verified properties

    The program renames ZIP archives to another extension.  Everything it
    does is string manipulation on path names plus three kinds of file
    system access: existence tests, a ZIP well-formedness test and
    [os.replace].  The embedding below follows the source function by
    function:

    - Python [str] values are [string]s, one [ascii] per code point below
      256; the [str] methods the program calls ([strip], [startswith],
      [rfind], slicing, [in]) are written out in module [Str];
    - [pathlib.Path] is the record [Path] (anchor and components, POSIX
      flavour, as CPython 3.8 to 3.12 parse and rebuild it; the check of
      [with_name] is that of 3.8 to 3.11, from which later versions differ
      only on names that hold a separator);
    - the file system is a finite map from paths to nodes, threaded through a
      small state-and-exception monad [M] together with the log of
      [os.replace] calls and the lines printed on standard output;
    - what a system call can fail with beyond what this map shows (a name
      too long, a permission denied, a missing directory above a
      destination) and which names are hard links to one file is given by
      the class [OS]: [Path.exists] and [Path.is_file] raise the errors of
      [stat] that [pathlib] does not take for absence, [os.replace] raises
      the errors of [rename].  There are two instances: [nominal], on which
      nothing fails but for what the map shows, and [limits], with the
      limit of Linux on the length of a name and the check of the directory
      of a destination.  A statement that names no operating system is
      about [nominal]; the statements of the sections that open with
      [Context {os : OS}] hold on every operating system;
    - [zipfile.is_zipfile], [glob.glob], [Path.resolve] and [argparse] are
      library code: they are parameters of the development. *)

From Stdlib Require Import Ascii.
From stdpp Require Import gmap strings list fin_maps pretty.

Local Open Scope string_scope.


(** ** Python's [str] methods *)

Module Str.

(** [str.isspace] on one code point below 256: TAB..CR, FS..US, space,
    NEL and NBSP. *)
Definition isspace (c : ascii) : bool :=
  let n := nat_of_ascii c in
  ((9 <=? n)%nat && (n <=? 13)%nat)
  || ((28 <=? n)%nat && (n <=? 32)%nat)
  || (n =? 133)%nat || (n =? 160)%nat.

Fixpoint lstrip (s : string) : string :=
  match s with
  | EmptyString => EmptyString
  | String c s' => if isspace c then lstrip s' else s
  end.

Fixpoint rstrip (s : string) : string :=
  match s with
  | EmptyString => EmptyString
  | String c s' =>
      match rstrip s' with
      | EmptyString => if isspace c then EmptyString else String c EmptyString
      | r => String c r
      end
  end.

(** [s.strip()] *)
Definition strip (s : string) : string := rstrip (lstrip s).

(** [s.startswith(p)] *)
Definition startswith (s p : string) : bool := String.prefix p s.

(** [c in s] for a one-character [c] *)
Fixpoint contains (c : ascii) (s : string) : bool :=
  match s with
  | EmptyString => false
  | String a s' => if decide (a = c) then true else contains c s'
  end.

(** [s.rfind(c)]: index of the last occurrence, [-1] when there is none. *)
Fixpoint rfind (c : ascii) (s : string) : Z :=
  match s with
  | EmptyString => (-1)%Z
  | String a s' =>
      let r := rfind c s' in
      if (0 <=? r)%Z then (r + 1)%Z
      else if decide (a = c) then 0%Z else (-1)%Z
  end.

(** [s[:i]] and [s[i:]] for [0 <= i] *)
Fixpoint take (i : nat) (s : string) : string :=
  match i, s with
  | S i', String a s' => String a (take i' s')
  | _, _ => EmptyString
  end.

Fixpoint drop (i : nat) (s : string) : string :=
  match i, s with
  | S i', String _ s' => drop i' s'
  | _, _ => s
  end.

(** [s[-1]] when [s] is not empty *)
Fixpoint last (s : string) : option ascii :=
  match s with
  | EmptyString => None
  | String a EmptyString => Some a
  | String _ s' => last s'
  end.

(** [s.split(c)] *)
Fixpoint split (c : ascii) (s : string) : list string :=
  match s with
  | EmptyString => [EmptyString]
  | String a s' =>
      if decide (a = c) then EmptyString :: split c s'
      else match split c s' with
           | w :: ws => String a w :: ws
           | [] => [String a EmptyString]
           end
  end.

(** [sep.join(ws)] *)
Fixpoint join (sep : string) (ws : list string) : string :=
  match ws with
  | [] => EmptyString
  | [w] => w
  | w :: ws' => w +:+ sep +:+ join sep ws'
  end.

(** [all(f(c) for c in s)] *)
Fixpoint all (f : ascii → bool) (s : string) : bool :=
  match s with
  | EmptyString => true
  | String a s' => f a && all f s'
  end.

(** [s.lstrip(c)] for a one-character [c] *)
Fixpoint lstrip_char (c : ascii) (s : string) : string :=
  match s with
  | EmptyString => EmptyString
  | String a s' => if decide (a = c) then lstrip_char c s' else s
  end.

(** One hexadecimal digit, lower case. *)
Definition hex_digit (n : nat) : ascii :=
  match n with
  | 0 => "0" | 1 => "1" | 2 => "2" | 3 => "3" | 4 => "4" | 5 => "5"
  | 6 => "6" | 7 => "7" | 8 => "8" | 9 => "9" | 10 => "a" | 11 => "b"
  | 12 => "c" | 13 => "d" | 14 => "e" | _ => "f"
  end%char%nat.

(** [str.isprintable] on one code point below 256. *)
Definition isprintable (c : ascii) : bool :=
  let n := nat_of_ascii c in
  ((32 <=? n)%nat && (n <=? 126)%nat)
  || ((161 <=? n)%nat && negb (n =? 173)%nat).

(** The body of [repr(s)], between quotes [q]; ["092"] is the backslash. *)
Fixpoint repr_body (q : ascii) (s : string) : string :=
  match s with
  | EmptyString => EmptyString
  | String c s' =>
      (if decide (c = q) then String "092"%char (String c EmptyString)
       else if decide (c = "092"%char) then String "092"%char (String "092"%char EmptyString)
       else if decide (c = "009"%char) then String "092"%char "t"
       else if decide (c = "010"%char) then String "092"%char "n"
       else if decide (c = "013"%char) then String "092"%char "r"
       else if isprintable c then String c EmptyString
       else String "092"%char
              (String "x"%char
                 (String (hex_digit (nat_of_ascii c / 16))
                    (String (hex_digit (nat_of_ascii c mod 16)) EmptyString))))
      +:+ repr_body q s'
  end.

(** [repr(s)]: between single quotes, or between double quotes (["034"])
    when [s] holds a single quote and no double quote. *)
Definition repr (s : string) : string :=
  let q := if contains "'"%char s && negb (contains "034"%char s)
           then "034"%char else "'"%char in
  String q (repr_body q s +:+ String q EmptyString).

End Str.

(** ** Exceptions and results *)

(** The error numbers of the system calls the program makes, and
    [Errno] for any other. *)
Inductive errno :=
| ENOENT | ENOTDIR | EISDIR
| EBADF | ELOOP | ENAMETOOLONG | EACCES | EPERM | EINVAL | ENOTEMPTY | EXDEV
| Errno (code : Z) (message : string).

(** The value of [errno] on Linux. *)
Definition errno_code (e : errno) : Z :=
  match e with
  | EPERM => 1 | ENOENT => 2 | EBADF => 9 | EACCES => 13 | EXDEV => 18
  | ENOTDIR => 20 | EISDIR => 21 | EINVAL => 22 | ENAMETOOLONG => 36
  | ENOTEMPTY => 39 | ELOOP => 40 | Errno code _ => code
  end%Z.

(** The errors [pathlib] takes for "no such path", [_ignore_error]:
    [ENOENT], [ENOTDIR], [EBADF] and [ELOOP]. *)
Definition ignore_error (e : errno) : bool :=
  bool_decide (errno_code e ∈ [2; 20; 9; 40]%Z).

(** [OSError] is raised by a call on two paths ([os.replace]), with both
    file names, [OSError1] by a call on one path ([os.stat]), with its file
    name; both are Python's [OSError] and an [except OSError] catches both. *)
Inductive exn :=
| ValueError (msg : string)
| OSError (e : errno) (src dst : string)
| OSError1 (e : errno) (filename : string)
| SystemExit (code : Z).

Inductive result (A : Type) :=
| Ok (a : A)
| Raise (e : exn).
Arguments Ok {A} a.
Arguments Raise {A} e.

Definition is_ValueError {A} (r : result A) : bool :=
  match r with Raise (ValueError _) => true | _ => false end.

(** ** [ensure_dot_prefix] *)

Definition ensure_dot_prefix (ext : string) : result string :=
  let ext := Str.strip ext in
  if decide (ext = "") then Raise (ValueError "Extension cannot be empty.")
  else
    let ext := if negb (Str.startswith ext ".") then "." +:+ ext else ext in
    Ok ext.

(** ** [pathlib.Path], POSIX flavour *)

(** A path is its anchor ([""], ["/"] or ["//"]) and the components after
    it; [Path_of_string] is the constructor [Path(s)] on one string:
    empty and ["."] components are dropped, [".."] is kept. *)
Record Path := mkPath { anchor : string; parts : list string }.

Global Instance Path_eq_dec : EqDecision Path.
Proof. solve_decision. Defined.

Global Instance Path_countable : Countable Path.
Proof.
  by apply (inj_countable' (λ p, (anchor p, parts p))
                           (λ x, mkPath x.1 x.2)); intros [].
Defined.

Definition kept_part (x : string) : bool :=
  negb (bool_decide (x = "")) && negb (bool_decide (x = ".")).

Definition splitroot (part : string) : string :=
  if Str.startswith part "/" then
    if (String.length part - String.length (Str.lstrip_char "/"%char part) =? 2)%nat
    then "//" else "/"
  else "".

Definition Path_of_string (s : string) : Path :=
  {| anchor := splitroot s;
     parts := filter (λ x, Is_true (kept_part x)) (Str.split "/"%char s) |}.

(** [str(p)] *)
Definition str (p : Path) : string :=
  let s := anchor p +:+ Str.join "/" (parts p) in
  if decide (s = "") then "." else s.

(** [p.name]: the final component, [""] for a bare anchor or [Path(".")] *)
Definition name (p : Path) : string := List.last (parts p) "".

(** [p.suffix] *)
Definition suffix (p : Path) : string :=
  let name := name p in
  let i := Str.rfind "."%char name in
  if (0 <? i)%Z && (i <? Z.of_nat (String.length name) - 1)%Z
  then Str.drop (Z.to_nat i) name else "".

(** [p.stem] *)
Definition stem (p : Path) : string :=
  let name := name p in
  let i := Str.rfind "."%char name in
  if (0 <? i)%Z && (i <? Z.of_nat (String.length name) - 1)%Z
  then Str.take (Z.to_nat i) name else name.

Definition replace_name (p : Path) (new_name : string) : Path :=
  {| anchor := anchor p; parts := removelast (parts p) ++ [new_name] |}.

(** [repr(p)], as it appears in error messages *)
Definition repr (p : Path) : string := "PosixPath('" +:+ str p +:+ "')".

(** [p.with_name(name)] *)
Definition with_name (p : Path) (new_name : string) : result Path :=
  if decide (name p = "") then
    Raise (ValueError (repr p +:+ " has an empty name"))
  else
    let q := Path_of_string new_name in
    if bool_decide (new_name = "")
       || bool_decide (Str.last new_name = Some "/"%char)
       || negb (bool_decide (anchor q = ""))
       || negb (length (parts q) =? 1)%nat
    then Raise (ValueError ("Invalid name '" +:+ new_name +:+ "'"))
    else Ok (replace_name p new_name).

(** [p.with_suffix(suffix)] *)
Definition with_suffix (p : Path) (new_suffix : string) : result Path :=
  if Str.contains "/"%char new_suffix then
    Raise (ValueError ("Invalid suffix '" +:+ new_suffix +:+ "'"))
  else if (negb (bool_decide (new_suffix = ""))
           && negb (Str.startswith new_suffix "."))
          || bool_decide (new_suffix = ".") then
    Raise (ValueError ("Invalid suffix '" +:+ new_suffix +:+ "'"))
  else
    let name := name p in
    if decide (name = "") then
      Raise (ValueError (repr p +:+ " has an empty name"))
    else
      let old_suffix := suffix p in
      let name :=
        if decide (old_suffix = "") then name +:+ new_suffix
        else Str.take (String.length name - String.length old_suffix) name
             +:+ new_suffix in
      Ok (replace_name p name).

(** ** The file system and the program's state *)

(** A node is a regular file with its content or a directory; the file
    system maps the paths that name something to their node.  What the map
    does not show (a name too long, a permission denied, a missing directory
    above a destination, two names of one file) is in the class [OS]
    below. *)
Inductive node :=
| File (content : string)
| Dir.

Global Instance node_eq_dec : EqDecision node.
Proof. solve_decision. Defined.

(** The operating system, for what the map of the file system does not
    show.
    - [stat_error p]: the error [os.stat(p)] fails with whatever the map
      holds at [p]: a component too long, search permission denied on a
      directory of the path, ...  It is never one of the errors [pathlib]
      takes for absence ([stat_error_raised]): absence is what the map
      shows, a path that is not in it giving [ENOENT].
    - [rename_error m src dst]: the error [rename(src, dst)] fails with
      although [src] and [dst] are as [m] shows them: the directory of [dst]
      is missing, permission is denied, the paths are on two devices, ...
    - [same_file p q]: [p] and [q] are hard links to one file. *)
Class OS := {
  stat_error : Path → option errno;
  rename_error : gmap Path node → Path → Path → option errno;
  same_file : Path → Path → bool;
  stat_error_raised : ∀ p e, stat_error p = Some e → ignore_error e = false
}.

(** The operating system on which no call fails for a reason the map does
    not show and no file has two names.  A statement that names no
    operating system is about this one. *)
Global Instance nominal : OS := {|
  stat_error := λ _, None;
  rename_error := λ _ _ _, None;
  same_file := λ _ _, false;
  stat_error_raised := λ _ _ H, match H with end
|}.

(** The limits of Linux, as a second operating system: a component of more
    than [NAME_MAX] bytes makes [stat] and [rename] fail with
    [ENAMETOOLONG], and [rename] fails when the directory of its destination
    is missing ([ENOENT]) or is a regular file ([ENOTDIR]).  The working
    directory and the root, which have no component, are there. *)
Definition NAME_MAX : nat := 255.

Definition name_too_long (p : Path) : bool :=
  existsb (λ x, NAME_MAX <? String.length x)%nat (parts p).

Definition parent (p : Path) : Path :=
  {| anchor := anchor p; parts := removelast (parts p) |}.

Definition parent_error (m : gmap Path node) (p : Path) : option errno :=
  match parts (parent p), m !! parent p with
  | [], _ => None
  | _, Some Dir => None
  | _, Some (File _) => Some ENOTDIR
  | _, None => Some ENOENT
  end.

Definition limits : OS.
Proof.
  refine {|
    stat_error := λ p, if name_too_long p then Some ENAMETOOLONG else None;
    rename_error := λ m src dst,
      if name_too_long src || name_too_long dst then Some ENAMETOOLONG
      else parent_error m dst;
    same_file := λ _ _, false
  |}.
  intros p e. simpl. destruct (name_too_long p); [|done].
  intros H. by injection H as <-.
Defined.

Record World := mkWorld {
  fs : gmap Path node;
  calls : list (Path * Path);   (* the [os.replace] calls made, oldest first *)
  stdout : list string          (* the lines printed, oldest first *)
}.

(** State and exceptions.  [None] stands for a loop that ran out of fuel:
    it is the only way a computation has no outcome. *)
Definition M (A : Type) : Type := World → option (result A * World).

Definition ret {A} (a : A) : M A := λ w, Some (Ok a, w).
Definition raise {A} (e : exn) : M A := λ w, Some (Raise e, w).
Definition diverge {A} : M A := λ _, None.
Definition lift {A} (r : result A) : M A := λ w, Some (r, w).

Definition bind {A B} (m : M A) (k : A → M B) : M B := λ w,
  match m w with
  | Some (Ok a, w') => k a w'
  | Some (Raise e, w') => Some (Raise e, w')
  | None => None
  end.

Notation "x <- m ;; k" := (bind m (λ x, k))
  (at level 100, m at next level, k at level 200, right associativity,
   format "'[v' x  <-  m  ;;  '/' k ']'").
Notation "m ;;; k" := (bind m (λ _, k))
  (at level 100, k at level 200, right associativity).

(** [str(e)] for an [OSError]: the error number, its message and the
    [repr] of the file names. *)

Definition errno_message (e : errno) : string :=
  match e with
  | EPERM => "Operation not permitted"
  | ENOENT => "No such file or directory"
  | EBADF => "Bad file descriptor"
  | EACCES => "Permission denied"
  | EXDEV => "Invalid cross-device link"
  | ENOTDIR => "Not a directory"
  | EISDIR => "Is a directory"
  | EINVAL => "Invalid argument"
  | ENAMETOOLONG => "File name too long"
  | ENOTEMPTY => "Directory not empty"
  | ELOOP => "Too many levels of symbolic links"
  | Errno _ message => message
  end.

Definition strerror (e : errno) : string :=
  "[Errno " +:+ pretty (errno_code e) +:+ "] " +:+ errno_message e.

Definition str_OSError (e : errno) (src dst : string) : string :=
  strerror e +:+ ": " +:+ Str.repr src +:+ " -> " +:+ Str.repr dst.

Definition str_OSError1 (e : errno) (filename : string) : string :=
  strerror e +:+ ": " +:+ Str.repr filename.

(** [try: body except OSError as e: handler], the handler being given
    [str(e)] *)
Definition try_except_OSError {A} (body : M A)
    (handler : string → M A) : M A := λ w,
  match body w with
  | Some (Raise (OSError e src dst), w') => handler (str_OSError e src dst) w'
  | Some (Raise (OSError1 e filename), w') =>
      handler (str_OSError1 e filename) w'
  | r => r
  end.

Definition get_fs : M (gmap Path node) := λ w, Some (Ok (fs w), w).

(** [print(msg)] *)
Definition print (msg : string) : M unit := λ w,
  Some (Ok tt, {| fs := fs w; calls := calls w; stdout := stdout w ++ [msg] |}).

Section FileSystem.

Context {os : OS}.

(** [os.stat(p)]: the node at [p], or the error number of the [OSError]. *)
Definition stat (m : gmap Path node) (p : Path) : errno + node :=
  match stat_error p with
  | Some e => inl e
  | None => match m !! p with Some n => inr n | None => inl ENOENT end
  end.

(** [p.exists()] and [p.is_file()]: an error of [stat] that is not ignored
    is raised again. *)
Definition exists_ (p : Path) : M bool :=
  m <- get_fs ;;
  match stat m p with
  | inr _ => ret true
  | inl e => if ignore_error e then ret false
             else raise (OSError1 e (str p))
  end.

Definition is_file (p : Path) : M bool :=
  m <- get_fs ;;
  match stat m p with
  | inr (File _) => ret true
  | inr Dir => ret false
  | inl e => if ignore_error e then ret false
             else raise (OSError1 e (str p))
  end.

(** [q] is strictly below the directory [d]. *)
Definition under (d q : Path) : bool :=
  bool_decide (anchor q = anchor d)
  && bool_decide (parts d `prefix_of` parts q)
  && negb (bool_decide (parts q = parts d)).

(** The file system after the directory [src] and all that is below it
    moved to [dst]. *)
Definition reroot (src dst q : Path) : Path :=
  {| anchor := anchor dst;
     parts := parts dst ++ drop (length (parts src)) (parts q) |}.

Definition move_tree (m : gmap Path node) (src dst : Path) : gmap Path node :=
  list_to_map
    ((λ qn : Path * node,
        (if bool_decide (qn.1 = src) || under src qn.1
         then reroot src dst qn.1 else qn.1, qn.2))
       <$> map_to_list (delete dst m)).

Definition has_children (m : gmap Path node) (d : Path) : bool :=
  negb (bool_decide (map_Forall (λ q _, under d q = false) m)).

(** [os.replace(src, dst)], that is rename(2).  A regular file moves to
    [dst], replacing a regular file there, but not a directory; nothing
    happens when the two are names of one file.  A directory moves with all
    that is below it, onto nothing or onto an empty directory, but not onto
    a regular file nor below itself.  Every call is logged, failed ones
    too; a failed call changes nothing else. *)
Definition os_replace (src dst : Path) : M unit := λ w,
  let logged m := {| fs := m; calls := calls w ++ [(src, dst)];
                     stdout := stdout w |} in
  let fails e := Some (Raise (OSError e (str src) (str dst)), logged (fs w)) in
  match rename_error (fs w) src dst with
  | Some e => fails e
  | None =>
      match fs w !! src, fs w !! dst with
      | None, _ => fails ENOENT
      | Some (File _), Some Dir => fails EISDIR
      | Some (File c), Some (File _) =>
          if same_file src dst then Some (Ok tt, logged (fs w))
          else Some (Ok tt, logged (<[dst := File c]> (delete src (fs w))))
      | Some (File c), None =>
          Some (Ok tt, logged (<[dst := File c]> (delete src (fs w))))
      | Some Dir, Some (File _) => fails ENOTDIR
      | Some Dir, Some Dir =>
          if bool_decide (src = dst) then Some (Ok tt, logged (fs w))
          else if under src dst then fails EINVAL
          else if has_children (fs w) dst then fails ENOTEMPTY
          else Some (Ok tt, logged (move_tree (fs w) src dst))
      | Some Dir, None =>
          if under src dst then fails EINVAL
          else Some (Ok tt, logged (move_tree (fs w) src dst))
      end
  end.

(** ** [next_available_path] *)

(** The body of [while True], entered with counter [i].  Python's loop has
    no bound; the model runs it on [fuel] and has no outcome when the fuel
    is spent. *)
Fixpoint probe (fuel : nat) (target : Path) (i : nat) : M Path :=
  match fuel with
  | O => diverge
  | S fuel' =>
      candidate <- lift (with_name target
                           (stem target +:+ "-" +:+ pretty i +:+ suffix target)) ;;
      e <- exists_ candidate ;;
      if negb e then ret candidate
      else probe fuel' target (S i)
  end.

Definition next_available_path_fuel (fuel : nat) (target : Path) : M Path :=
  e <- exists_ target ;;
  if negb e then ret target
  else probe fuel target 1.

(** The fuel the program is run on: one more than the number of entries of
    the file system ([next_available_path_fuel_present] shows that any
    larger amount gives the same outcome). *)
Definition next_available_path (target : Path) : M Path :=
  m <- get_fs ;; next_available_path_fuel (S (size m)) target.

(** ** [safe_replace] *)

Definition safe_replace (src dst : Path) (overwrite : bool) : M Path :=
  dst <- (if overwrite then ret dst else next_available_path dst) ;;
  (os_replace src dst ;;;
   ret dst).

End FileSystem.

(** ** The command-line arguments *)

Record Namespace := mkNamespace {
  paths : list string;
  pattern : list string;
  to : string;
  force : bool;
  no_verify : bool;
  dry_run : bool
}.

Section Program.

Context {os : OS}.

(** Library code the program calls. *)
Variable zipfile_is_zipfile : string → bool.           (* on a file's content *)
Variable glob_glob : gmap Path node → string → list string.
Variable resolve : gmap Path node → Path → Path.
Variable parse_args : list string → result Namespace.

(** *** [is_zip_file] *)

(** [zipfile.is_zipfile] answers [False] for what it cannot open, and
    [is_zip_file] turns any exception into [False]. *)
Definition is_zip_file (path : Path) : M bool :=
  m <- get_fs ;;
  ret (match m !! path with
       | Some (File content) => zipfile_is_zipfile content
       | _ => false
       end).

(** *** [change_extension] *)

Definition change_extension (file_path : Path) (new_extension : string)
    (verify_zip overwrite dry_run : bool) : M (bool * string) :=
  f <- is_file file_path ;;
  if negb f then
    ret (false, "Skip: '" +:+ str file_path +:+ "' is not a file.")
  else
    new_extension <- lift (ensure_dot_prefix new_extension) ;;
    skip <- (if verify_zip
             then z <- is_zip_file file_path ;; ret (negb z)
             else ret false) ;;
    if skip then
      ret (false, "Skip: '" +:+ str file_path
                  +:+ "' is not a valid ZIP (use --no-verify to force).")
    else
      dst <- lift (with_suffix file_path new_extension) ;;
      if dry_run then
        e <- (if overwrite then exists_ dst else ret false) ;;
        let exists_note := if e then " (will overwrite)" else "" in
        ret (true, "Would rename: " +:+ name file_path +:+ " -> "
                   +:+ name dst +:+ exists_note)
      else
        try_except_OSError
          (final_dst <- (if overwrite then ret dst
                         else next_available_path dst) ;;
           e <- (if overwrite then exists_ dst else ret false) ;;
           if e then
             os_replace file_path dst ;;;
             ret (true, "Renamed (overwrote): " +:+ name file_path
                        +:+ " -> " +:+ name dst)
           else
             os_replace file_path final_dst ;;;
             let suffix_note :=
               if decide (final_dst = dst) then ""
               else " (renamed to avoid conflict: " +:+ name final_dst +:+ ")" in
             ret (true, "Renamed: " +:+ name file_path +:+ " -> "
                        +:+ name final_dst +:+ suffix_note))
          (λ e,
             ret (false, "Error renaming '" +:+ str file_path +:+ "': "
                         +:+ e)).

(** *** [expand_inputs] *)

(** The inner loop, [for p in matches], on the pair of [seen] and
    [results]. *)
Fixpoint expand_matches (matches : list Path)
    (st : gset Path * list Path) : M (gset Path * list Path) :=
  match matches with
  | [] => ret st
  | p :: matches' =>
      e <- exists_ p ;;
      m <- get_fs ;;
      let p := if e then resolve m p else p in
      let '(seen, results) := st in
      expand_matches matches'
        (if decide (p ∈ seen) then st else ({[p]} ∪ seen, (results ++ [p])%list))
  end.

(** The outer loop, [for item in paths_or_patterns]. *)
Fixpoint expand_items (items : list string)
    (st : gset Path * list Path) : M (gset Path * list Path) :=
  match items with
  | [] => ret st
  | item :: items' =>
      m <- get_fs ;;
      let matches := Path_of_string <$> glob_glob m item in
      let matches :=
        if decide (matches = []) then [Path_of_string item] else matches in
      st <- expand_matches matches st ;;
      expand_items items' st
  end.

Definition expand_inputs (paths_or_patterns : list string) : M (list Path) :=
  st <- expand_items paths_or_patterns (∅, []) ;;
  ret st.2.

(** *** [main] *)

(** [for f in files] with the accumulator [overall_ok]. *)
Fixpoint main_loop (args : Namespace) (files : list Path)
    (overall_ok : bool) : M bool :=
  match files with
  | [] => ret overall_ok
  | f :: files' =>
      r <- change_extension f (to args) (negb (no_verify args))
             (force args) (dry_run args) ;;
      (print r.2 ;;;
       main_loop args files' (overall_ok && r.1))
  end.

Definition main (argv : list string) : M Z :=
  args <- lift (parse_args argv) ;;
  let inputs := (paths args ++ pattern args)%list in
  if decide (inputs = []) then
    print "No inputs provided. Specify files or use --pattern." ;;;
    ret 2%Z
  else
    files <- expand_inputs inputs ;;
    if decide (files = []) then
      print "No files matched the provided paths/patterns." ;;;
      ret 1%Z
    else
      overall_ok <- main_loop args files true ;;
      ret (if overall_ok then 0%Z else 1%Z).

End Program.

(** ** Vocabulary of the statements *)

(** What [pathlib] guarantees of the final component of a path that names a
    file: it is not empty and holds no separator. *)
Definition wf_name (p : Path) : Prop :=
  name p ≠ "" ∧ Str.contains "/"%char (name p) = false.

(** A suffix [with_suffix] accepts: dot-prefixed, longer than the dot alone,
    without a separator. *)
Definition valid_suffix (ext : string) : Prop :=
  Str.startswith ext "." = true ∧ ext ≠ "." ∧ Str.contains "/"%char ext = false.

(** The [i]th candidate of [next_available_path target]. *)
Definition candidate (target : Path) (i : nat) : Path :=
  replace_name target (stem target +:+ "-" +:+ pretty i +:+ suffix target).

(** The naive destination of [change_extension]. *)
Definition dest (p : Path) (ext : string) : Path :=
  replace_name p
    (if decide (suffix p = "") then name p +:+ ext
     else Str.take (String.length (name p) - String.length (suffix p)) (name p)
          +:+ ext).

Definition exists_in (m : gmap Path node) (p : Path) : Prop := is_Some (m !! p).


(** The state after [os.replace(src, dst)] moved the regular file [src]
    holding [c]. *)
Definition moved (w : World) (src dst : Path) (c : string) : World :=
  {| fs := <[dst := File c]> (delete src (fs w));
     calls := calls w ++ [(src, dst)];
     stdout := stdout w |}.

(** The file passes the ZIP gate: the check is off or the content is a
    well-formed archive. *)
Definition passes_gate (zv : string → bool) (verify_zip : bool) (c : string) : Prop :=
  verify_zip = false ∨ zv c = true.

(** The message of a rename to [final] when the naive destination was
    [dst]. *)
Definition renamed_msg (p final dst : Path) : string :=
  "Renamed: " +:+ name p +:+ " -> " +:+ name final
  +:+ (if decide (final = dst) then ""
       else " (renamed to avoid conflict: " +:+ name final +:+ ")").

(** The destination the code chooses without [overwrite]: [dst] itself
    when it is free, else the first free candidate. *)
Definition chosen (m : gmap Path node) (dst final : Path) : Prop :=
  (m !! dst = None ∧ final = dst)
  ∨ (exists_in m dst
     ∧ ∃ k, (1 ≤ k)%nat ∧ final = candidate dst k
            ∧ ∀ j, (1 ≤ j < k)%nat → exists_in m (candidate dst j)).


(** The state after [print(msg)]. *)
Definition printed (w : World) (msg : string) : World :=
  {| fs := fs w; calls := calls w; stdout := stdout w ++ [msg] |}.


(** The invariant of the loops of [expand_inputs]: [seen] holds exactly the
    paths of [results], which has no duplicates. *)
Definition expand_inv (st : gset Path * list Path) : Prop :=
  (∀ q, q ∈ st.1 ↔ q ∈ st.2) ∧ NoDup st.2.


(** The path [expand_inputs] records for a match [p]: resolved when it
    exists, as given otherwise. *)
Definition normalized (resolve : gmap Path node → Path → Path)
    (m : gmap Path node) (p : Path) : Path :=
  if bool_decide (is_Some (m !! p)) then resolve m p else p.

(** The paths one input contributes: the matches of [glob], or the input as
    a literal path when there are none, each normalized. *)
Definition matches_of (glob_glob : gmap Path node → string → list string)
    (resolve : gmap Path node → Path → Path) (m : gmap Path node)
    (item : string) : list Path :=
  let matches := Path_of_string <$> glob_glob m item in
  let matches :=
    if decide (matches = []) then [Path_of_string item] else matches in
  normalized resolve m <$> matches.

(** The paths one input is expanded to, before they are normalized. *)
Definition expanded (glob_glob : gmap Path node → string → list string)
    (m : gmap Path node) (item : string) : list Path :=
  let matches := Path_of_string <$> glob_glob m item in
  if decide (matches = []) then [Path_of_string item] else matches.

(** A list with each element kept at its first occurrence only. *)
Definition keep_first_step (acc : list Path) (p : Path) : list Path :=
  if decide (p ∈ acc) then acc else (acc ++ [p])%list.

Definition keep_first (l : list Path) : list Path :=
  foldl keep_first_step [] l.

(** The state after a failed [os.replace(src, dst)]: the call is logged and
    nothing else changes. *)
Definition attempted (w : World) (src dst : Path) : World :=
  {| fs := fs w; calls := calls w ++ [(src, dst)]; stdout := stdout w |}.

(** * Properties *)

(** ** Strings *)

Module StrFacts.
Import Str.

Lemma app_nil_l (b : string) : "" +:+ b = b.
Proof. reflexivity. Qed.

Lemma app_cons c (a b : string) : String c a +:+ b = String c (a +:+ b).
Proof. reflexivity. Qed.

Ltac sapp := simpl in *; rewrite ?app_nil_l, ?app_cons in *; simpl in *.

Lemma length_app (a b : string) :
  String.length (a +:+ b) = String.length a + String.length b.
Proof. induction a as [|c a IH]; sapp; congruence. Qed.

Lemma app_nil_r (a : string) : a +:+ "" = a.
Proof. induction a as [|c a IH]; sapp; congruence. Qed.

Lemma app_assoc (a b c : string) : (a +:+ b) +:+ c = a +:+ (b +:+ c).
Proof. induction a as [|x a IH]; sapp; congruence. Qed.

Lemma app_inj_r (a b t : string) : a +:+ t = b +:+ t → a = b.
Proof.
  revert b; induction a as [|x a IH]; intros [|y b] H.
  - done.
  - apply (f_equal String.length) in H.
    rewrite !length_app in H. simpl in H. lia.
  - apply (f_equal String.length) in H.
    rewrite !length_app in H. simpl in H. lia.
  - rewrite !app_cons in H. injection H as -> H. f_equal. by apply IH.
Qed.

Lemma contains_app c (a b : string) :
  contains c (a +:+ b) = contains c a || contains c b.
Proof.
  induction a as [|x a IH]; sapp; [done|].
  by destruct (decide (x = c)).
Qed.

Lemma split_no_sep c (s : string) : contains c s = false → split c s = [s].
Proof.
  induction s as [|x s IH]; simpl; [done|].
  destruct (decide (x = c)); [done|]. intros H. by rewrite (IH H).
Qed.

Lemma take_drop i (s : string) : take i s +:+ drop i s = s.
Proof.
  revert s; induction i as [|i IH]; intros [|x s]; sapp; try done.
  by rewrite IH.
Qed.



Lemma contains_take c i (s : string) :
  contains c s = false → contains c (take i s) = false.
Proof.
  intros H. rewrite <-(take_drop i s), contains_app in H.
  by apply orb_false_iff in H as [? _].
Qed.

Lemma contains_drop c i (s : string) :
  contains c s = false → contains c (drop i s) = false.
Proof.
  intros H. rewrite <-(take_drop i s), contains_app in H.
  by apply orb_false_iff in H as [_ ?].
Qed.

Lemma last_contains c (s : string) : last s = Some c → contains c s = true.
Proof.
  induction s as [|x s IH]; simpl; [done|].
  destruct s as [|y s].
  - intros [= ->]. by rewrite decide_True.
  - intros H. destruct (decide (x = c)); [done | by apply IH].
Qed.

Lemma startswith_contains c (s : string) :
  startswith s (String c "") = true → contains c s = true.
Proof.
  unfold startswith. destruct s as [|x s]; simpl; [done|].
  destruct (ascii_dec c x) as [->|]; [|done]. by rewrite decide_True.
Qed.

(** The decimal digits of a number hold no separator. *)
Lemma contains_pretty_N_go (x : N) (s : string) :
  contains "/"%char (pretty_N_go x s) = contains "/"%char s.
Proof.
  revert s. induction (N.lt_wf_0 x) as [x _ IH]; intros s.
  assert (x = 0 ∨ 0 < x)%N as [->|?] by lia.
  - by rewrite pretty_N_go_0.
  - rewrite pretty_N_go_step by done. rewrite IH by (by apply N.div_lt).
    simpl. unfold pretty_N_char. by repeat case_match.
Qed.

Lemma contains_pretty (i : nat) : contains "/"%char (pretty i) = false.
Proof.
  unfold pretty, pretty_nat, pretty, pretty_N.
  case_decide; [done|]. by rewrite contains_pretty_N_go.
Qed.

Lemma length_pretty_N_go (y : N) (s : string) :
  (String.length s ≤ String.length (pretty_N_go y s))%nat.
Proof.
  revert s. induction (N.lt_wf_0 y) as [y _ IH]; intros s.
  assert (y = 0 ∨ 0 < y)%N as [->|?] by lia; [by rewrite pretty_N_go_0|].
  rewrite pretty_N_go_step by done.
  etrans; [|by eapply IH, N.div_lt]. simpl; lia.
Qed.

Lemma pretty_nonempty (i : nat) : pretty i ≠ "".
Proof.
  unfold pretty, pretty_nat, pretty, pretty_N.
  case_decide; [done|]. intros E.
  rewrite pretty_N_go_step in E by lia.
  pose proof (length_pretty_N_go (N.of_nat i `div` 10)%N
                (String (pretty_N_char (N.of_nat i `mod` 10)) "")) as help.
  rewrite E in help. simpl in help. lia.
Qed.

(** [strip] removes a run of whitespace at each end and nothing else. *)
Lemma lstrip_decompose (s : string) :
  ∃ l, s = l +:+ lstrip s ∧ all isspace l = true.
Proof.
  induction s as [|c s (l & Hl & Hsp)]; simpl.
  - by exists "".
  - destruct (isspace c) eqn:Hc.
    + exists (String c l). sapp. rewrite Hc. split; [congruence | done].
    + by exists "".
Qed.

Lemma rstrip_decompose (s : string) :
  ∃ r, s = rstrip s +:+ r ∧ all isspace r = true.
Proof.
  induction s as [|c s (r & Hr & Hsp)]; simpl.
  - by exists "".
  - destruct (rstrip s) as [|d t] eqn:Ht.
    + sapp. subst s. destruct (isspace c) eqn:Hc.
      * exists (String c r). simpl. by rewrite Hc.
      * by exists r.
    + exists r. sapp. split; [congruence | done].
Qed.

Lemma lstrip_head (c : ascii) (s : string) :
  isspace c = false → lstrip (String c s) = String c s.
Proof. intros H. simpl. by rewrite H. Qed.

Lemma lstrip_idem (s : string) : lstrip (lstrip s) = lstrip s.
Proof.
  induction s as [|c s IH]; simpl; [done|].
  destruct (isspace c) eqn:Hc; [done | by apply lstrip_head].
Qed.

Lemma rstrip_idem (s : string) : rstrip (rstrip s) = rstrip s.
Proof.
  induction s as [|c s IH]; simpl; [done|].
  destruct (rstrip s) as [|d t] eqn:Ht.
  - destruct (isspace c) eqn:Hc; simpl; [done | by rewrite Hc].
  - simpl in *. by rewrite IH.
Qed.

Lemma lstrip_rstrip (s : string) :
  lstrip s = s → lstrip (rstrip s) = rstrip s.
Proof.
  destruct s as [|c s]; simpl; [done|].
  destruct (isspace c) eqn:Hc.
  - intros H. apply (f_equal String.length) in H. simpl in H.
    destruct (lstrip_decompose s) as (l & Hl & _).
    apply (f_equal String.length) in Hl. rewrite length_app in Hl. lia.
  - intros _. destruct (rstrip s); by apply lstrip_head.
Qed.

Lemma strip_decompose (s : string) :
  ∃ l r, s = l +:+ strip s +:+ r
         ∧ all isspace l = true ∧ all isspace r = true.
Proof.
  destruct (lstrip_decompose s) as (l & Hl & Hsl).
  destruct (rstrip_decompose (lstrip s)) as (r & Hr & Hsr).
  exists l, r. unfold strip. by rewrite <-Hr.
Qed.

Lemma strip_trimmed (s : string) :
  lstrip (strip s) = strip s ∧ rstrip (strip s) = strip s.
Proof.
  unfold strip. split; [|apply rstrip_idem].
  apply lstrip_rstrip, lstrip_idem.
Qed.

End StrFacts.

(** ** [ensure_dot_prefix] *)

(** C7.  [ensure_dot_prefix e] works on [e] with the whitespace at both ends
    removed.  It raises the invalid-argument error [ValueError] exactly when
    that trimmed string is empty, as it is for [""] and ["   "]; otherwise
    it returns the trimmed string, with a ["."] put in front unless one is
    there already, so whatever it returns starts with ["."].  It is a
    function of its argument alone: it has no access to the state. *)
Theorem ensure_dot_prefix_contract (e : string) :
  let t := Str.strip e in
  (∃ l r, e = l +:+ t +:+ r
          ∧ Str.all Str.isspace l = true ∧ Str.all Str.isspace r = true
          ∧ Str.lstrip t = t ∧ Str.rstrip t = t)
  ∧ (t = "" ↔ ensure_dot_prefix e = Raise (ValueError "Extension cannot be empty."))
  ∧ (t ≠ "" →
     ensure_dot_prefix e = Ok (if Str.startswith t "." then t else "." +:+ t))
  ∧ (∀ r, ensure_dot_prefix e = Ok r → Str.startswith r "." = true)
  ∧ is_ValueError (ensure_dot_prefix "") = true
  ∧ is_ValueError (ensure_dot_prefix "   ") = true.
Proof.
  intros t. split; [|split; [|split; [|split]]].
  - destruct (StrFacts.strip_decompose e) as (l & r & He & Hl & Hr).
    destruct (StrFacts.strip_trimmed e) as [H1 H2]. by exists l, r.
  - unfold ensure_dot_prefix. fold t. destruct (decide (t = "")); naive_solver.
  - intros Ht. unfold ensure_dot_prefix. fold t.
    rewrite decide_False by done. by destruct (Str.startswith t ".").
  - intros r. unfold ensure_dot_prefix. fold t.
    destruct (decide (t = "")); [done|].
    destruct (Str.startswith t ".") eqn:Hs; simpl; intros [= <-];
      [done | by destruct t].
  - split; reflexivity.
Qed.

Lemma ensure_dot_prefix_contract_witness :
  ensure_dot_prefix " ben " = Ok ".ben".
Proof.
  destruct (ensure_dot_prefix_contract " ben ") as (_ & _ & H & _).
  apply H. discriminate.
Defined.


(** ** Paths *)

Section PathFacts.
Import StrFacts.

Lemma name_replace_name (p : Path) (n : string) : name (replace_name p n) = n.
Proof. unfold name, replace_name; simpl. apply last_last. Qed.


Lemma replace_name_inj (p : Path) (n1 n2 : string) :
  replace_name p n1 = replace_name p n2 → n1 = n2.
Proof.
  intros H. apply (f_equal name) in H. by rewrite !name_replace_name in H.
Qed.

Lemma stem_suffix (p : Path) : stem p +:+ suffix p = name p.
Proof.
  unfold stem, suffix. case_match; [apply take_drop | apply app_nil_r].
Qed.

Lemma contains_stem (p : Path) :
  Str.contains "/"%char (name p) = false → Str.contains "/"%char (stem p) = false.
Proof.
  intros H. rewrite <-stem_suffix, contains_app in H.
  by apply orb_false_iff in H as [? _].
Qed.

Lemma contains_suffix (p : Path) :
  Str.contains "/"%char (name p) = false →
  Str.contains "/"%char (suffix p) = false.
Proof.
  intros H. rewrite <-stem_suffix, contains_app in H.
  by apply orb_false_iff in H as [_ ?].
Qed.

(** A name without separator that is neither empty nor ["."] is accepted
    by [with_name]. *)
Lemma with_name_ok (p : Path) (n : string) :
  name p ≠ "" → n ≠ "" → n ≠ "." → Str.contains "/"%char n = false →
  with_name p n = Ok (replace_name p n).
Proof.
  intros Hp Hn Hdot Hsep. unfold with_name.
  rewrite decide_False by done.
  rewrite (bool_decide_eq_false_2 (n = "")) by done.
  assert (Str.last n ≠ Some "/"%char) as Hlast.
  { intros H%last_contains. congruence. }
  rewrite (bool_decide_eq_false_2 _ Hlast).
  assert (Str.startswith n "/" = false) as Hstart.
  { destruct (Str.startswith n "/") eqn:E; [|done].
    apply startswith_contains in E. congruence. }
  unfold Path_of_string, splitroot; simpl. rewrite Hstart.
  rewrite split_no_sep by done. simpl.
  rewrite filter_cons_True; [done|].
  unfold kept_part. rewrite !bool_decide_eq_false_2 by done. done.
Qed.

Lemma candidate_name_length (p : Path) (i : nat) :
  (String.length (name p) + 2 ≤
   String.length (stem p +:+ "-" +:+ pretty i +:+ suffix p))%nat.
Proof.
  rewrite <-(stem_suffix p), !length_app.
  pose proof (pretty_nonempty i) as H.
  destruct (pretty i); [done|]. simpl. lia.
Qed.

Lemma with_name_candidate (p : Path) (i : nat) :
  wf_name p →
  with_name p (stem p +:+ "-" +:+ pretty i +:+ suffix p) = Ok (candidate p i).
Proof.
  intros [Hne Hsep]. apply with_name_ok; [done|..].
  - intros E. pose proof (candidate_name_length p i) as H.
    rewrite E in H. simpl in H. lia.
  - intros E. pose proof (candidate_name_length p i) as H.
    rewrite E in H. simpl in H. destruct (name p); [done|]. simpl in H. lia.
  - rewrite !contains_app, contains_stem, contains_suffix, contains_pretty
      by done. done.
Qed.

Lemma name_candidate (p : Path) (i : nat) :
  name (candidate p i) = stem p +:+ "-" +:+ pretty i +:+ suffix p.
Proof. apply name_replace_name. Qed.

Global Instance candidate_inj (p : Path) : Inj (=) (=) (candidate p).
Proof.
  intros i j H. apply replace_name_inj in H.
  apply (inj (String.append (stem p))) in H.
  apply (inj (String.append "-")) in H.
  apply app_inj_r in H. by apply (inj pretty) in H.
Qed.

Lemma candidate_ne (p : Path) (i : nat) : candidate p i ≠ p.
Proof.
  intros E. apply (f_equal (λ q, String.length (name q))) in E.
  rewrite name_candidate in E.
  pose proof (candidate_name_length p i). lia.
Qed.


End PathFacts.

(** ** The monad *)

Global Arguments next_available_path : simpl never.
Global Arguments os_replace : simpl never.
Global Arguments with_suffix : simpl never.
Global Arguments with_name : simpl never.
Global Arguments ensure_dot_prefix : simpl never.

(** On the nominal operating system the tests of existence read the map and
    do not fail. *)
Lemma exists_nominal (p : Path) (w : World) :
  exists_ p w = Some (Ok (bool_decide (is_Some (fs w !! p))), w).
Proof.
  unfold exists_, bind, get_fs, stat, ret; simpl.
  by destruct (fs w !! p) as [n|].
Qed.

Lemma is_file_nominal (p : Path) (w : World) :
  is_file p w
  = Some (Ok (match fs w !! p with Some (File _) => true | _ => false end), w).
Proof.
  unfold is_file, bind, get_fs, stat, ret; simpl.
  by destruct (fs w !! p) as [[c|]|].
Qed.

Ltac munfold :=
  repeat progress
    (unfold bind, ret, lift, raise, diverge, get_fs, print;
     rewrite ?exists_nominal, ?is_file_nominal;
     simpl).

(** ** [next_available_path] *)

Section NextAvailablePath.

(** The loop returns the first free candidate at or after its counter,
    provided the fuel reaches one. *)
Lemma probe_first_free (w : World) (target : Path) :
  wf_name target →
  ∀ fuel i j,
    (i ≤ j < i + fuel)%nat → fs w !! candidate target j = None →
    ∃ k, (i ≤ k ≤ j)%nat
         ∧ probe fuel target i w = Some (Ok (candidate target k), w)
         ∧ fs w !! candidate target k = None
         ∧ ∀ l, (i ≤ l < k)%nat → is_Some (fs w !! candidate target l).
Proof.
  intros Hwf. induction fuel as [|fuel IH]; intros i j Hij Hfree; [lia|].
  simpl. munfold. rewrite with_name_candidate by done. munfold.
  destruct (fs w !! candidate target i) as [n|] eqn:Hi.
  - rewrite bool_decide_eq_true_2 by eauto. simpl.
    assert (i ≠ j) by (intros ->; congruence).
    destruct (IH (S i) j) as (k & Hk & Hrun & Hnone & Hbelow); [lia|done|].
    exists k. repeat split; [lia|lia|done|done|].
    intros l Hl. destruct (decide (l = i)) as [->|]; [eauto|].
    apply Hbelow. lia.
  - rewrite bool_decide_eq_false_2 by (by intros [? ?]). simpl.
    exists i. repeat split; [lia|lia|done|]. intros l Hl. lia.
Qed.

(** Among the first [size m + 1] candidates one is free: they are pairwise
    distinct and the file system has only [size m] entries. *)
Lemma free_candidate (m : gmap Path node) (target : Path) :
  ∃ j, (1 ≤ j ≤ S (size m))%nat ∧ m !! candidate target j = None.
Proof.
  set (js := seq 1 (S (size m))).
  destruct (decide (Forall (λ j, is_Some (m !! candidate target j)) js))
    as [Hall|Hex].
  - exfalso.
    assert (candidate target <$> js ⊆+ (map_to_list m).*1) as Hsub.
    { apply NoDup_submseteq.
      - apply (NoDup_fmap_2 _), NoDup_seq.
      - intros q (j & -> & Hj)%list_elem_of_fmap.
        rewrite Forall_forall in Hall. destruct (Hall j Hj) as [n Hn].
        apply list_elem_of_fmap. exists (candidate target j, n).
        split; [done|]. by apply elem_of_map_to_list. }
    apply submseteq_length in Hsub.
    rewrite !length_fmap, length_map_to_list in Hsub.
    unfold js in Hsub. rewrite length_seq in Hsub. lia.
  - apply not_Forall_Exists in Hex; [|apply _].
    apply Exists_exists in Hex as (j & Hj & Hnone).
    apply elem_of_seq in Hj. exists j. split; [lia|].
    by apply eq_None_not_Some.
Qed.

(** So there is a first free candidate. *)
Lemma least_free_candidate (m : gmap Path node) (target : Path) :
  ∃ k, (1 ≤ k ≤ S (size m))%nat
       ∧ m !! candidate target k = None
       ∧ ∀ l, (1 ≤ l < k)%nat → is_Some (m !! candidate target l).
Proof.
  destruct (free_candidate m target) as (j & Hj & Hfree).
  assert (∀ n i, (i ≤ j < i + n)%nat →
            ∃ k, (i ≤ k ≤ j)%nat ∧ m !! candidate target k = None
                 ∧ ∀ l, (i ≤ l < k)%nat → is_Some (m !! candidate target l))
    as Hleast.
  { induction n as [|n IH]; intros i Hi; [lia|].
    destruct (m !! candidate target i) as [nd|] eqn:E.
    - assert (i ≠ j) by (intros ->; congruence).
      destruct (IH (S i)) as (k & Hk & Hnone & Hbelow); [lia|].
      exists k. split; [lia|]. split; [done|].
      intros l Hl. destruct (decide (l = i)) as [->|]; [eauto|].
      apply Hbelow. lia.
    - exists i. split; [lia|]. split; [done|]. intros l Hl. lia. }
  destruct (Hleast (S (size m)) 1) as (k & Hk & Hnone & Hbelow); [lia|].
  exists k. split; [lia|]. by split.
Qed.

Lemma next_available_path_fuel_absent (fuel : nat) (w : World) (p : Path) :
  fs w !! p = None → next_available_path_fuel fuel p w = Some (Ok p, w).
Proof.
  intros H. unfold next_available_path_fuel. munfold.
  rewrite H. by rewrite bool_decide_eq_false_2 by (by intros [? ?]).
Qed.

Lemma next_available_path_fuel_present (w : World) (p : Path) :
  exists_in (fs w) p → wf_name p →
  ∃ k, (1 ≤ k ≤ S (size (fs w)))%nat
       ∧ fs w !! candidate p k = None
       ∧ (∀ j, (1 ≤ j < k)%nat → exists_in (fs w) (candidate p j))
       ∧ ∀ fuel, (size (fs w) < fuel)%nat →
           next_available_path_fuel fuel p w = Some (Ok (candidate p k), w).
Proof.
  intros Hex Hwf.
  destruct (free_candidate (fs w) p) as (j & Hj & Hfree).
  destruct (probe_first_free w p Hwf (S (size (fs w))) 1 j)
    as (k & Hk & _ & Hnone & Hbelow); [lia|done|].
  exists k. repeat split; [lia|lia|done|done|].
  intros fuel Hfuel. unfold next_available_path_fuel. munfold.
  rewrite bool_decide_eq_true_2 by done. simpl.
  destruct (probe_first_free w p Hwf fuel 1 k)
    as (k' & Hk' & Hrun & Hnone' & Hbelow'); [lia|done|].
  destruct (decide (k' = k)) as [->|]; [done|].
  destruct (Hbelow k') as [nd Hnd]; [lia|]. congruence.
Qed.

End NextAvailablePath.

(** ** The file-system calls on any operating system *)

Section AnyOS.

Context {os : OS}.

(** What a test of existence gives: the error of [stat] when there is one,
    else what the map shows. *)
Lemma exists_eval (p : Path) (w : World) :
  exists_ p w
  = Some (match stat_error p with
          | Some e => Raise (OSError1 e (str p))
          | None => Ok (bool_decide (is_Some (fs w !! p)))
          end, w).
Proof.
  unfold exists_, stat, bind, get_fs, ret, raise. simpl.
  destruct (stat_error p) as [e|] eqn:E.
  - by rewrite (stat_error_raised p e E).
  - by destruct (fs w !! p).
Qed.

Lemma is_file_eval (p : Path) (w : World) :
  is_file p w
  = Some (match stat_error p with
          | Some e => Raise (OSError1 e (str p))
          | None => Ok (match fs w !! p with
                        | Some (File _) => true
                        | _ => false
                        end)
          end, w).
Proof.
  unfold is_file, stat, bind, get_fs, ret, raise. simpl.
  destruct (stat_error p) as [e|] eqn:E.
  - by rewrite (stat_error_raised p e E).
  - by destruct (fs w !! p) as [[c|]|].
Qed.

Lemma exists_true (p : Path) (w : World) :
  exists_ p w = Some (Ok true, w) ↔ stat_error p = None ∧ is_Some (fs w !! p).
Proof.
  rewrite exists_eval. destruct (stat_error p) as [e|].
  { split; [done | by intros [? _]]. }
  split.
  - intros [= H%bool_decide_eq_true]. done.
  - intros [_ H]. by rewrite bool_decide_eq_true_2.
Qed.

Lemma exists_false (p : Path) (w : World) :
  exists_ p w = Some (Ok false, w) ↔ stat_error p = None ∧ fs w !! p = None.
Proof.
  rewrite exists_eval. destruct (stat_error p) as [e|].
  { split; [done | by intros [? _]]. }
  split.
  - intros [= H%bool_decide_eq_false]. split; [done|].
    by apply eq_None_not_Some.
  - intros [_ H]. rewrite bool_decide_eq_false_2; [done|].
    rewrite H. by intros [? ?].
Qed.

Lemma os_replace_effect (src dst : Path) (w : World) :
  ∃ r w', os_replace src dst w = Some (r, w')
          ∧ calls w' = (calls w ++ [(src, dst)])%list
          ∧ stdout w' = stdout w
          ∧ (r = Ok tt ∨ fs w' = fs w ∧ ∃ e s d, r = Raise (OSError e s d)).
Proof.
  unfold os_replace.
  destruct (rename_error (fs w) src dst) as [e|];
    [|destruct (fs w !! src) as [[c|]|]; destruct (fs w !! dst) as [[c'|]|]];
    repeat match goal with
           | |- context [if ?b then _ else _] => destruct b
           end;
    eexists _, _; (split; [reflexivity|]); simpl; repeat split; eauto 10.
Qed.

(** A test of existence answers or raises, and leaves the state as it
    was. *)
Lemma exists_cases (p : Path) (w : World) :
  exists_ p w = Some (Ok true, w) ∨ exists_ p w = Some (Ok false, w)
  ∨ ∃ e, exists_ p w = Some (Raise (OSError1 e (str p)), w).
Proof.
  unfold exists_, bind, get_fs, ret, raise. simpl.
  destruct (stat (fs w) p) as [e|n]; [destruct (ignore_error e)|]; eauto.
Qed.

Lemma is_file_cases (p : Path) (w : World) :
  is_file p w = Some (Ok true, w) ∨ is_file p w = Some (Ok false, w)
  ∨ ∃ e, is_file p w = Some (Raise (OSError1 e (str p)), w).
Proof.
  unfold is_file, bind, get_fs, ret, raise. simpl.
  destruct (stat (fs w) p) as [e|[c|]]; [destruct (ignore_error e)| |]; eauto.
Qed.

Lemma probe_state (fuel : nat) (target : Path) (i : nat) (w w' : World)
    (r : result Path) :
  probe fuel target i w = Some (r, w') → w' = w.
Proof.
  revert i. induction fuel as [|fuel IH]; intros i; simpl; [done|].
  unfold bind at 1. unfold lift.
  destruct (with_name target _) as [q|e]; [|by intros [= _ <-]].
  unfold bind.
  destruct (exists_cases q w) as [E|[E|[e E]]]; rewrite E; simpl;
    [apply IH | by intros [= _ <-] | by intros [= _ <-]].
Qed.

Lemma next_available_path_state (target : Path) (w w' : World)
    (r : result Path) :
  next_available_path target w = Some (r, w') → w' = w.
Proof.
  unfold next_available_path, bind, get_fs.
  generalize (S (size (fs w))). intros fuel.
  unfold next_available_path_fuel, bind.
  destruct (exists_cases target w) as [E|[E|[e E]]]; rewrite E; simpl;
    [apply probe_state | by intros [= _ <-] | by intros [= _ <-]].
Qed.

(** [os.replace] fails with the error of [rename] when there is one;
    otherwise a regular file moves, unless the destination is another name
    of the same file. *)
Lemma os_replace_error (w : World) (src dst : Path) (e : errno) :
  rename_error (fs w) src dst = Some e →
  os_replace src dst w
  = Some (Raise (OSError e (str src) (str dst)), attempted w src dst).
Proof. intros H. unfold os_replace. by rewrite H. Qed.

Lemma os_replace_moves (w : World) (src dst : Path) (c : string) :
  rename_error (fs w) src dst = None →
  fs w !! src = Some (File c) → fs w !! dst ≠ Some Dir →
  same_file src dst = false ∨ fs w !! dst = None →
  os_replace src dst w = Some (Ok tt, moved w src dst c).
Proof.
  intros Hr Hsrc Hdst Hsame. unfold os_replace, moved. rewrite Hr, Hsrc.
  destruct (fs w !! dst) as [[c'|]|]; [|done|done].
  by destruct Hsame as [->|?].
Qed.

Lemma os_replace_same_file (w : World) (src dst : Path) (c c' : string) :
  rename_error (fs w) src dst = None →
  fs w !! src = Some (File c) → fs w !! dst = Some (File c') →
  same_file src dst = true →
  os_replace src dst w = Some (Ok tt, attempted w src dst).
Proof.
  intros Hr Hsrc Hdst Hsame. unfold os_replace. by rewrite Hr, Hsrc, Hdst, Hsame.
Qed.

(** The loop returns the first free candidate at or after its counter,
    provided the fuel reaches one and [stat] fails on none up to it. *)
Lemma probe_least (w : World) (target : Path) :
  wf_name target →
  ∀ fuel i j,
    (i ≤ j < i + fuel)%nat → fs w !! candidate target j = None →
    (∀ l, (i ≤ l ≤ j)%nat → stat_error (candidate target l) = None) →
    ∃ k, (i ≤ k ≤ j)%nat
         ∧ probe fuel target i w = Some (Ok (candidate target k), w)
         ∧ fs w !! candidate target k = None
         ∧ ∀ l, (i ≤ l < k)%nat → is_Some (fs w !! candidate target l).
Proof.
  intros Hwf. induction fuel as [|fuel IH]; intros i j Hij Hfree Hstat; [lia|].
  simpl. unfold bind at 1, lift. rewrite with_name_candidate by done.
  unfold bind. rewrite exists_eval, (Hstat i) by lia.
  destruct (fs w !! candidate target i) as [n|] eqn:Hi.
  - rewrite bool_decide_eq_true_2 by eauto. simpl.
    assert (i ≠ j) by (intros ->; congruence).
    destruct (IH (S i) j) as (k & Hk & Hrun & Hnone & Hbelow); [lia|done|..].
    { intros l Hl. apply Hstat. lia. }
    exists k. repeat split; [lia|lia|done|done|].
    intros l Hl. destruct (decide (l = i)) as [->|]; [eauto|].
    apply Hbelow. lia.
  - rewrite bool_decide_eq_false_2 by (by intros [? ?]). simpl.
    exists i. repeat split; [lia|lia|done|]. intros l Hl. lia.
Qed.

Lemma next_available_path_fuel_false (fuel : nat) (w : World) (p : Path) :
  exists_ p w = Some (Ok false, w) →
  next_available_path_fuel fuel p w = Some (Ok p, w).
Proof. intros H. unfold next_available_path_fuel, bind. by rewrite H. Qed.

(** [stat] fails on none of the candidates the loop reaches when it fails
    on no candidate whose predecessors all exist. *)
Lemma reached_stat (w : World) (p : Path) (k : nat) :
  (∀ j, (1 ≤ j)%nat →
     (∀ l, (1 ≤ l < j)%nat → exists_ (candidate p l) w = Some (Ok true, w)) →
     stat_error (candidate p j) = None) →
  (∀ l, (1 ≤ l < k)%nat → is_Some (fs w !! candidate p l)) →
  ∀ l, (1 ≤ l ≤ k)%nat → stat_error (candidate p l) = None.
Proof.
  intros Hstat Hbelow l. induction l as [l IH] using lt_wf_ind. intros Hl.
  apply Hstat; [lia|]. intros l' Hl'. apply exists_true.
  split; [apply IH; lia | apply Hbelow; lia].
Qed.

Lemma next_available_path_fuel_least (w : World) (p : Path) :
  exists_ p w = Some (Ok true, w) → wf_name p →
  (∀ j, (1 ≤ j)%nat →
     (∀ l, (1 ≤ l < j)%nat → exists_ (candidate p l) w = Some (Ok true, w)) →
     stat_error (candidate p j) = None) →
  ∃ k, (1 ≤ k ≤ S (size (fs w)))%nat
       ∧ fs w !! candidate p k = None
       ∧ stat_error (candidate p k) = None
       ∧ (∀ j, (1 ≤ j < k)%nat →
            is_Some (fs w !! candidate p j) ∧ stat_error (candidate p j) = None)
       ∧ ∀ fuel, (size (fs w) < fuel)%nat →
           next_available_path_fuel fuel p w = Some (Ok (candidate p k), w).
Proof.
  intros Hex Hwf Hstat.
  destruct (least_free_candidate (fs w) p) as (k & Hk & Hnone & Hbelow).
  pose proof (reached_stat w p k Hstat Hbelow) as Hreached.
  exists k. split; [done|]. split; [done|]. split; [apply Hreached; lia|].
  split.
  { intros j Hj. split; [by apply Hbelow | apply Hreached; lia]. }
  intros fuel Hfuel. unfold next_available_path_fuel, bind. rewrite Hex. simpl.
  destruct (probe_least w p Hwf fuel 1 k)
    as (k' & Hk' & Hrun & Hnone' & Hbelow'); [lia|done|done|].
  destruct (decide (k' = k)) as [->|]; [done|].
  destruct (Hbelow k') as [nd Hnd]; [lia|]. congruence.
Qed.

(** The loop stops wherever the fuel reaches a free candidate: at a
    candidate that is not there, at one [with_name] refuses, or at one on
    which [stat] fails. *)
Lemma probe_stops (w : World) (target : Path) :
  ∀ fuel i j,
    (i ≤ j < i + fuel)%nat → fs w !! candidate target j = None →
    ∃ r, probe fuel target i w = Some (r, w)
         ∧ (∀ q, r = Ok q →
              exists_ q w = Some (Ok false, w)
              ∧ ∃ k, (i ≤ k)%nat ∧ q = candidate target k)
         ∧ (∀ e, r = Raise e →
              (∃ msg, e = ValueError msg)
              ∨ ∃ k en, (i ≤ k)%nat
                        ∧ stat_error (candidate target k) = Some en
                        ∧ e = OSError1 en (str (candidate target k))).
Proof.
  induction fuel as [|fuel IH]; intros i j Hij Hfree; [lia|].
  simpl. unfold bind at 1, lift.
  destruct (with_name target _) as [q|e] eqn:Hq.
  2: { eexists. split; [done|]. split; [done|]. intros e' [= <-]. left.
       unfold with_name in Hq. case_decide; [injection Hq as <-; eauto|].
       destruct (_ || _); [injection Hq as <-; eauto | done]. }
  assert (q = candidate target i) as ->.
  { unfold with_name in Hq. case_decide; [done|].
    destruct (_ || _); [done|]. by injection Hq as <-. }
  unfold bind. rewrite exists_eval.
  destruct (stat_error (candidate target i)) as [en|] eqn:Hen.
  { eexists. split; [done|]. split; [done|]. intros e' [= <-]. right.
    exists i, en. by split. }
  destruct (fs w !! candidate target i) as [n|] eqn:Hi.
  - rewrite bool_decide_eq_true_2 by eauto. simpl.
    assert (i ≠ j) by (intros ->; congruence).
    destruct (IH (S i) j) as (r & Hrun & Hok & Hraise); [lia|done|].
    exists r. split; [done|]. split.
    + intros q Hr. destruct (Hok q Hr) as (Hfalse & k & Hk & ->).
      split; [done|]. exists k. split; [lia|done].
    + intros e Hr. destruct (Hraise e Hr) as [?|(k & en & Hk & ? & ?)]; [eauto|].
      right. exists k, en. split; [lia|done].
  - rewrite bool_decide_eq_false_2 by (by intros [? ?]). simpl.
    eexists. split; [done|]. split; [|done]. intros q [= <-].
    split; [by apply exists_false | by exists i].
Qed.

(** [next_available_path] on any path and any operating system: it
    terminates in the state of the call, with a path for which the test of
    existence answered [False], the [ValueError] of [with_name], or the
    [OSError] of a test of existence. *)
Lemma next_available_path_answers (w : World) (target : Path) :
  ∃ r, next_available_path target w = Some (r, w)
       ∧ (∀ q, r = Ok q →
            exists_ q w = Some (Ok false, w)
            ∧ (q = target ∨ ∃ k, (1 ≤ k)%nat ∧ q = candidate target k))
       ∧ (∀ e, r = Raise e →
            (∃ msg, e = ValueError msg)
            ∨ ∃ q en, (q = target ∨ ∃ k, (1 ≤ k)%nat ∧ q = candidate target k)
                      ∧ stat_error q = Some en
                      ∧ e = OSError1 en (str q)).
Proof.
  unfold next_available_path, bind at 1, get_fs, next_available_path_fuel, bind.
  rewrite exists_eval.
  destruct (stat_error target) as [en|] eqn:Hen.
  { eexists. split; [done|]. split; [done|]. intros e [= <-]. right.
    exists target, en. split; [by left | done]. }
  destruct (fs w !! target) as [n|] eqn:Ht.
  - rewrite bool_decide_eq_true_2 by eauto. simpl.
    destruct (free_candidate (fs w) target) as (j & Hj & Hfree).
    destruct (probe_stops w target (S (size (fs w))) 1 j)
      as (r & Hrun & Hok & Hraise); [lia|done|].
    exists r. split; [done|]. split.
    + intros q Hq. destruct (Hok q Hq) as (Hfalse & k & Hk & ->). eauto.
    + intros e He. destruct (Hraise e He) as [?|(k & en & Hk & ? & ?)]; [eauto|].
      right. exists (candidate target k), en. split; [eauto | done].
  - rewrite bool_decide_eq_false_2 by (by intros [? ?]). simpl.
    eexists. split; [done|]. split; [|done]. intros q [= <-].
    split; [by apply exists_false | by left].
Qed.



End AnyOS.

Ltac gunfold :=
  repeat progress
    (unfold bind, ret, lift, raise, diverge, get_fs, print;
     rewrite ?exists_eval, ?is_file_eval;
     simpl).

Section Contract.

Context {os : OS}.

(** C6, as the code has it.  When [p.exists()] answers [False],
    [next_available_path p] returns [p].  When [p.exists()] answers [True],
    the final component of [p] is not empty and [stat] fails on none of the
    candidates the loop reaches (those whose predecessors all exist), it
    returns the candidate with the least suffix number [k >= 1] for which
    the test of existence answers [False]: a path that does not exist in the
    state of the call, differs from [p], and is named by [p]'s stem, ["-k"]
    and [p]'s extension.  The loop terminates: any fuel above the number of
    entries of the file system gives this same result, and in both cases the
    state is left as it was. *)
Theorem next_available_path_contract (w : World) (p : Path) :
  (exists_ p w = Some (Ok false, w) →
   next_available_path p w = Some (Ok p, w)
   ∧ ∀ fuel, next_available_path_fuel fuel p w = Some (Ok p, w))
  ∧ (exists_ p w = Some (Ok true, w) → wf_name p →
     (∀ j, (1 ≤ j)%nat →
        (∀ l, (1 ≤ l < j)%nat →
           exists_ (candidate p l) w = Some (Ok true, w)) →
        stat_error (candidate p j) = None) →
     ∃ k, (1 ≤ k)%nat
          ∧ next_available_path p w = Some (Ok (candidate p k), w)
          ∧ (∀ fuel, (size (fs w) < fuel)%nat →
               next_available_path_fuel fuel p w = Some (Ok (candidate p k), w))
          ∧ exists_ (candidate p k) w = Some (Ok false, w)
          ∧ (∀ j, (1 ≤ j < k)%nat →
               exists_ (candidate p j) w = Some (Ok true, w))
          ∧ candidate p k ≠ p
          ∧ name (candidate p k) = stem p +:+ "-" +:+ pretty k +:+ suffix p).
Proof.
  split.
  - intros Hfalse. split.
    + unfold next_available_path, bind, get_fs.
      by apply next_available_path_fuel_false.
    + intros fuel. by apply next_available_path_fuel_false.
  - intros Hex Hwf Hstat.
    destruct (next_available_path_fuel_least w p Hex Hwf Hstat)
      as (k & Hk & Hnone & Hstatk & Hbelow & Hrun).
    exists k. split; [lia|]. split.
    { unfold next_available_path, bind, get_fs. apply Hrun. lia. }
    split; [done|]. split; [by apply exists_false|]. split.
    { intros j Hj. apply exists_true. destruct (Hbelow j Hj). by split. }
    split; [apply candidate_ne | apply name_candidate].
Qed.

End Contract.

Ltac by_evaluation :=
  solve [ vm_compute; reflexivity
        | vm_compute; discriminate
        | eexists; vm_compute; reflexivity
        | split; vm_compute; (reflexivity || discriminate)
        | vm_compute; intuition discriminate ].

Lemma next_available_path_contract_witness :
  let p := Path_of_string "a.ben" in
  let w := mkWorld {[ p := File "old" ]} [] [] in
  ∃ k, next_available_path (os := limits) p w = Some (Ok (candidate p k), w)
       ∧ exists_ (os := limits) (candidate p k) w = Some (Ok false, w).
Proof.
  intros p w.
  destruct (next_available_path_contract (os := limits) w p) as [_ H].
  destruct H as (k & _ & Hrun & _ & Hfalse & _).
  - vm_compute. reflexivity.
  - by_evaluation.
  - intros j Hj Hreached. destruct (decide (j = 1)) as [->|Hne].
    + vm_compute. reflexivity.
    + specialize (Hreached 1%nat ltac:(lia)). vm_compute in Hreached.
      discriminate.
  - exists k. split; [exact Hrun | exact Hfalse].
Defined.

(** The claim as the specification words it, for every existing path, fails
    at the root directory: it exists, has an empty final component, and
    [with_name] refuses it. *)
Lemma next_available_path_root_raises :
  let root := Path_of_string "/" in
  let w := mkWorld {[ root := Dir ]} [] [] in
  exists_in (fs w) root
  ∧ next_available_path root w
    = Some (Raise (ValueError "PosixPath('/') has an empty name"), w)
  ∧ ¬ ∃ q, next_available_path root w = Some (Ok q, w).
Proof.
  intros root w. split; [by_evaluation|].
  assert (next_available_path root w
          = Some (Raise (ValueError "PosixPath('/') has an empty name"), w))
    as E by (vm_compute; reflexivity).
  split; [done|]. intros [q Hq]. congruence.
Qed.

(** ** [with_suffix] and [os.replace] *)

Section SuffixFacts.
Import StrFacts.

Lemma valid_suffix_nonempty (ext : string) : valid_suffix ext → ext ≠ "".
Proof. intros [H _] ->. done. Qed.

Lemma with_suffix_ok (p : Path) (ext : string) :
  wf_name p → valid_suffix ext → with_suffix p ext = Ok (dest p ext).
Proof.
  intros [Hne Hsep] (Hdot & Hone & Hext). unfold with_suffix, dest.
  rewrite Hext, Hdot. simpl.
  rewrite (bool_decide_eq_false_2 (ext = ".")) by done.
  rewrite andb_false_r. simpl. by rewrite decide_False by done.
Qed.

Lemma name_dest (p : Path) (ext : string) :
  ∃ base, name (dest p ext) = base +:+ ext
          ∧ (Str.contains "/"%char (name p) = false →
             Str.contains "/"%char base = false).
Proof.
  unfold dest. rewrite name_replace_name. case_decide.
  - by exists (name p).
  - eexists. split; [done|]. apply contains_take.
Qed.

Lemma wf_name_dest (p : Path) (ext : string) :
  wf_name p → valid_suffix ext → wf_name (dest p ext).
Proof.
  intros [Hne Hsep] Hv. unfold wf_name.
  destruct (name_dest p ext) as (base & -> & Hbase).
  pose proof (valid_suffix_nonempty ext Hv). destruct Hv as (_ & _ & Hext).
  split.
  - intros E. apply (f_equal String.length) in E.
    rewrite length_app in E. destruct ext; [done|]. simpl in E. lia.
  - by rewrite contains_app, Hbase, Hext.
Qed.


End SuffixFacts.

Section OsReplace.

Lemma os_replace_file (w : World) (src dst : Path) (c : string) :
  fs w !! src = Some (File c) → fs w !! dst ≠ Some Dir →
  os_replace src dst w = Some (Ok tt, moved w src dst c).
Proof.
  intros Hsrc Hdst. unfold os_replace, moved. rewrite Hsrc.
  destruct (fs w !! dst) as [[|]|]; done.
Qed.

Lemma os_replace_onto_dir (w : World) (src dst : Path) (c : string) :
  fs w !! src = Some (File c) → fs w !! dst = Some Dir →
  os_replace src dst w
  = Some (Raise (OSError EISDIR (str src) (str dst)),
          {| fs := fs w; calls := calls w ++ [(src, dst)];
             stdout := stdout w |}).
Proof. intros Hsrc Hdst. unfold os_replace. by rewrite Hsrc, Hdst. Qed.

Lemma moved_lookup_dst (w : World) (src dst : Path) (c : string) :
  fs (moved w src dst c) !! dst = Some (File c).
Proof. simpl. apply lookup_insert_eq. Qed.

Lemma moved_lookup_src (w : World) (src dst : Path) (c : string) :
  src ≠ dst → fs (moved w src dst c) !! src = None.
Proof.
  intros H. simpl. rewrite lookup_insert_ne by done. apply lookup_delete_eq.
Qed.

Lemma moved_lookup_other (w : World) (src dst q : Path) (c : string) :
  q ≠ src → q ≠ dst → fs (moved w src dst c) !! q = fs w !! q.
Proof.
  intros H1 H2. simpl. rewrite lookup_insert_ne by done.
  by rewrite lookup_delete_ne.
Qed.

(** Replacing a file by itself leaves the file system as it was. *)
Lemma moved_same (w : World) (p : Path) (c : string) :
  fs w !! p = Some (File c) → fs (moved w p p c) = fs w.
Proof. intros H. simpl. rewrite insert_delete_eq. by apply insert_id. Qed.

End OsReplace.

(** ** [change_extension], branch by branch *)

Section ChangeExtension.

Variable zv : string → bool.   (* [zipfile.is_zipfile] on contents *)

Ltac open_change_extension :=
  unfold change_extension, is_zip_file, try_except_OSError; munfold.

Lemma change_extension_not_file (w : World) (p : Path) (ext : string)
    (verify_zip overwrite dry_run : bool) :
  (∀ c, fs w !! p ≠ Some (File c)) →
  change_extension zv p ext verify_zip overwrite dry_run w
  = Some (Ok (false, "Skip: '" +:+ str p +:+ "' is not a file."), w).
Proof.
  intros H. open_change_extension.
  destruct (fs w !! p) as [[c|]|] eqn:E; try done. by destruct (H c).
Qed.

Lemma change_extension_bad_extension (w : World) (p : Path) (ext : string)
    (c : string) (e : exn) (verify_zip overwrite dry_run : bool) :
  fs w !! p = Some (File c) → ensure_dot_prefix ext = Raise e →
  change_extension zv p ext verify_zip overwrite dry_run w = Some (Raise e, w).
Proof. intros Hp He. open_change_extension. by rewrite Hp, He. Qed.

Lemma change_extension_skip (w : World) (p : Path) (ext ext' : string)
    (c : string) (overwrite dry_run : bool) :
  fs w !! p = Some (File c) → ensure_dot_prefix ext = Ok ext' →
  zv c = false →
  change_extension zv p ext true overwrite dry_run w
  = Some (Ok (false, "Skip: '" +:+ str p
                     +:+ "' is not a valid ZIP (use --no-verify to force)."),
          w).
Proof.
  intros Hp He Hz. open_change_extension. rewrite Hp, He. simpl.
  by rewrite Hp, Hz.
Qed.

(** Past the gate, [change_extension] is what follows the computation of
    [dst]. *)
Lemma change_extension_past_gate (w : World) (p : Path) (ext ext' : string)
    (c : string) (verify_zip overwrite dry_run : bool) :
  fs w !! p = Some (File c) → ensure_dot_prefix ext = Ok ext' →
  passes_gate zv verify_zip c →
  change_extension zv p ext verify_zip overwrite dry_run w
  = change_extension zv p ext false overwrite dry_run w.
Proof.
  intros Hp He [->|Hz]; [done|]. open_change_extension. rewrite Hp, He. simpl.
  destruct verify_zip; [|done]. simpl. by rewrite Hp, Hz.
Qed.

Lemma change_extension_bad_suffix (w : World) (p : Path) (ext ext' : string)
    (c : string) (e : exn) (overwrite dry_run : bool) :
  fs w !! p = Some (File c) → ensure_dot_prefix ext = Ok ext' →
  with_suffix p ext' = Raise e →
  change_extension zv p ext false overwrite dry_run w = Some (Raise e, w).
Proof. intros Hp He Hs. open_change_extension. by rewrite Hp, He, Hs. Qed.

Lemma change_extension_dry_run (w : World) (p dst : Path) (ext ext' : string)
    (c : string) (overwrite : bool) :
  fs w !! p = Some (File c) → ensure_dot_prefix ext = Ok ext' →
  with_suffix p ext' = Ok dst →
  change_extension zv p ext false overwrite true w
  = Some (Ok (true, "Would rename: " +:+ name p +:+ " -> " +:+ name dst
                    +:+ (if overwrite && bool_decide (exists_in (fs w) dst)
                         then " (will overwrite)" else "")), w).
Proof.
  intros Hp He Hs. open_change_extension. rewrite Hp, He, Hs. simpl.
  destruct overwrite; munfold; done.
Qed.

Lemma change_extension_overwrite (w : World) (p dst : Path)
    (ext ext' : string) (c : string) :
  fs w !! p = Some (File c) → ensure_dot_prefix ext = Ok ext' →
  with_suffix p ext' = Ok dst → fs w !! dst ≠ Some Dir →
  change_extension zv p ext false true false w
  = Some (Ok (true,
              if bool_decide (exists_in (fs w) dst)
              then "Renamed (overwrote): " +:+ name p +:+ " -> " +:+ name dst
              else "Renamed: " +:+ name p +:+ " -> " +:+ name dst),
          moved w p dst c).
Proof.
  intros Hp He Hs Hd. open_change_extension. rewrite Hp, He, Hs. munfold.
  destruct (bool_decide (is_Some (fs w !! dst))) eqn:Hex;
    unfold exists_in; rewrite ?Hex; simpl;
    rewrite (os_replace_file w p dst c) by done.
  - done.
  - by rewrite decide_True, StrFacts.app_nil_r by done.
Qed.

Lemma change_extension_overwrite_dir (w : World) (p dst : Path)
    (ext ext' : string) (c : string) :
  fs w !! p = Some (File c) → ensure_dot_prefix ext = Ok ext' →
  with_suffix p ext' = Ok dst → fs w !! dst = Some Dir →
  change_extension zv p ext false true false w
  = Some (Ok (false, "Error renaming '" +:+ str p +:+ "': "
                     +:+ str_OSError EISDIR (str p) (str dst)),
          {| fs := fs w; calls := calls w ++ [(p, dst)]; stdout := stdout w |}).
Proof.
  intros Hp He Hs Hd. open_change_extension. rewrite Hp, He, Hs. munfold.
  rewrite bool_decide_eq_true_2 by (by rewrite Hd). simpl.
  by rewrite (os_replace_onto_dir w p dst c).
Qed.

(** Without [overwrite] the file goes to the path [next_available_path]
    answers for [dst]. *)
Lemma change_extension_no_overwrite (w : World) (p dst final : Path)
    (ext ext' : string) (c : string) :
  fs w !! p = Some (File c) → ensure_dot_prefix ext = Ok ext' →
  with_suffix p ext' = Ok dst →
  next_available_path dst w = Some (Ok final, w) → fs w !! final = None →
  change_extension zv p ext false false false w
  = Some (Ok (true,
              "Renamed: " +:+ name p +:+ " -> " +:+ name final
              +:+ (if decide (final = dst) then ""
                   else " (renamed to avoid conflict: " +:+ name final +:+ ")")),
          moved w p final c).
Proof.
  intros Hp He Hs Hn Hfree. open_change_extension. rewrite Hp, He, Hs. simpl.
  fold (next_available_path dst). rewrite Hn.
  rewrite (os_replace_file w p final c) by (done || by rewrite Hfree).
  done.
Qed.

End ChangeExtension.

(** ** What a call may do to the state *)

Section Effects.

Variable zv : string → bool.

(** On the nominal operating system [next_available_path] raises nothing
    but the [ValueError] of [with_name]. *)
Lemma next_available_path_raises (target : Path) (w w' : World) (e : exn) :
  next_available_path target w = Some (Raise e, w') → ∃ msg, e = ValueError msg.
Proof.
  unfold next_available_path, bind, get_fs.
  generalize (S (size (fs w))). intros fuel.
  unfold next_available_path_fuel. munfold.
  destruct (bool_decide _); simpl; [|done].
  generalize 1. induction fuel as [|fuel IH]; intros i; simpl; munfold; [done|].
  unfold with_name. case_decide; [intros [= <- _]; eauto|].
  destruct (_ || _); simpl; [intros [= <- _]; eauto|]. munfold.
  destruct (bool_decide _); simpl; [apply IH | done].
Qed.

(** Either the call leaves the state as it was, or it was not a dry run and
    made exactly one [os.replace] call, with the file as source. *)
Lemma change_extension_effect (w w' : World) (p : Path) (ext : string)
    (verify_zip overwrite dry_run : bool) (r : result (bool * string)) :
  change_extension zv p ext verify_zip overwrite dry_run w = Some (r, w') →
  (w' = w ∧ ∀ msg, r = Ok (true, msg) → dry_run = true)
  ∨ (dry_run = false ∧ stdout w' = stdout w
     ∧ (∃ dst, calls w' = (calls w ++ [(p, dst)])%list)
     ∧ ∃ ok msg, r = Ok (ok, msg)).
Proof.
  intros H.
  destruct (fs w !! p) as [[c|]|] eqn:Hp.
  2,3: rewrite change_extension_not_file in H by (intros c'; congruence);
       injection H as <- <-; left; by split.
  destruct (ensure_dot_prefix ext) as [ext'|e] eqn:He.
  2: { rewrite (change_extension_bad_extension zv w p ext c e) in H by done.
       injection H as <- <-. left. by split. }
  assert (verify_zip = true ∧ zv c = false ∨ passes_gate zv verify_zip c)
    as [[-> Hz]|Hgate].
  { unfold passes_gate. destruct verify_zip, (zv c); auto. }
  { rewrite (change_extension_skip zv w p ext ext' c) in H by done.
    injection H as <- <-. left. by split. }
  rewrite (change_extension_past_gate zv w p ext ext' c) in H by done.
  destruct (with_suffix p ext') as [dst|e] eqn:Hs.
  2: { rewrite (change_extension_bad_suffix zv w p ext ext' c e) in H by done.
       injection H as <- <-. left. by split. }
  destruct dry_run.
  { rewrite (change_extension_dry_run zv w p dst ext ext' c) in H by done.
    injection H as <- <-. left. by split. }
  destruct overwrite.
  - right. split; [done|].
    destruct (decide (fs w !! dst = Some Dir)) as [Hd|Hd].
    + rewrite (change_extension_overwrite_dir zv w p dst ext ext' c) in H
        by done.
      injection H as <- <-. simpl. eauto 10.
    + rewrite (change_extension_overwrite zv w p dst ext ext' c) in H by done.
      injection H as <- <-. simpl. eauto 10.
  - revert H. unfold change_extension, is_zip_file, try_except_OSError.
    munfold. rewrite Hp, He, Hs. simpl.
    destruct (next_available_path dst w) as [[[final|e] w1]|] eqn:Hn;
      [| |done].
    + apply next_available_path_state in Hn as ->.
      destruct (os_replace_effect p final w)
        as (r0 & w0 & -> & Hcalls & Hout & [->|(_ & e & s & d & ->)]);
        intros [= <- <-]; right; eauto 10.
    + destruct (next_available_path_raises _ _ _ _ Hn) as [msg ->].
      apply next_available_path_state in Hn as ->.
      intros [= <- <-]. left. by split.
Qed.

End Effects.

(** ** Renaming without [overwrite] *)

Section Renames.

Variable zv : string → bool.

Lemma next_available_path_chosen (w : World) (dst : Path) :
  wf_name dst →
  ∃ final, next_available_path dst w = Some (Ok final, w)
           ∧ fs w !! final = None ∧ chosen (fs w) dst final.
Proof.
  intros Hwf. destruct (fs w !! dst) as [n|] eqn:Hd.
  - destruct (next_available_path_fuel_present w dst) as
      (k & Hk & Hnone & Hbelow & Hrun); [by exists n | done |].
    exists (candidate dst k). split; [|split; [done|]].
    + unfold next_available_path, bind, get_fs. apply Hrun. lia.
    + right. split; [by exists n|]. exists k. split; [lia|]. by split.
  - exists dst. split; [|split; [done | by left]].
    unfold next_available_path, bind, get_fs.
    by apply next_available_path_fuel_absent.
Qed.

Lemma change_extension_renames (w : World) (p : Path) (c ext ext' : string)
    (verify_zip : bool) :
  fs w !! p = Some (File c) → wf_name p →
  ensure_dot_prefix ext = Ok ext' → valid_suffix ext' →
  passes_gate zv verify_zip c →
  ∃ final,
    change_extension zv p ext verify_zip false false w
    = Some (Ok (true, renamed_msg p final (dest p ext')), moved w p final c)
    ∧ fs w !! final = None
    ∧ chosen (fs w) (dest p ext') final.
Proof.
  intros Hp Hwf He Hv Hgate.
  destruct (next_available_path_chosen w (dest p ext'))
    as (final & Hrun & Hnone & Hch); [by apply wf_name_dest|].
  exists final. split; [|done].
  rewrite (change_extension_past_gate zv w p ext ext' c) by done.
  apply (change_extension_no_overwrite zv w p (dest p ext') final ext ext' c);
    try done.
  by apply with_suffix_ok.
Qed.

End Renames.

(** ** The scenario [a.zip] to [.ben] *)

Section AZip.

Lemma replace_replace (p : Path) (x y : string) :
  replace_name (replace_name p x) y = replace_name p y.
Proof. unfold replace_name; simpl. by rewrite removelast_last. Qed.

Lemma ensure_dot_prefix_dot_ben : ensure_dot_prefix ".ben" = Ok ".ben".
Proof. reflexivity. Qed.

Lemma valid_suffix_dot_ben : valid_suffix ".ben".
Proof. by repeat split. Qed.

Lemma wf_name_a_zip (p : Path) : name p = "a.zip" → wf_name p.
Proof. intros H. unfold wf_name. by rewrite H. Qed.

Lemma dest_a_zip (p : Path) :
  name p = "a.zip" → dest p ".ben" = replace_name p "a.ben".
Proof. intros H. unfold dest, suffix. by rewrite H. Qed.

Lemma candidate_a_ben (p : Path) (k : nat) :
  candidate (replace_name p "a.ben") k
  = replace_name p ("a-" +:+ pretty k +:+ ".ben").
Proof.
  unfold candidate, stem, suffix. rewrite name_replace_name, replace_replace.
  reflexivity.
Qed.

Lemma a_zip_ne_a_ben (p : Path) : name p = "a.zip" → replace_name p "a.ben" ≠ p.
Proof.
  intros H E. apply (f_equal name) in E. rewrite name_replace_name, H in E.
  discriminate.
Qed.

Lemma a_k_ben_ne_a_ben (p : Path) (k : nat) :
  replace_name p ("a-" +:+ pretty k +:+ ".ben") ≠ replace_name p "a.ben".
Proof. intros E%replace_name_inj. discriminate. Qed.

Lemma a_k_ben_ne_a_zip (p : Path) (k : nat) :
  name p = "a.zip" → replace_name p ("a-" +:+ pretty k +:+ ".ben") ≠ p.
Proof.
  intros H E. apply (f_equal name) in E. rewrite name_replace_name, H in E.
  discriminate.
Qed.

End AZip.

(** ** Conflict avoidance and overwriting *)

Section ConflictAndOverwrite.

Variable zv : string → bool.

(** C1.  Let [a.zip] be a regular file holding a valid ZIP, and let
    [a.ben] exist beside it.  [change_extension] to [".ben"] with
    [overwrite = False] and [dry_run = False] succeeds and renames [a.zip]
    to [a-k.ben], where [k >= 1] is the first number whose [a-k.ben] does
    not exist ([a-1.ben] when that is free); the message notes the
    adjustment.  [a.ben] is what it was, [a.zip] is gone, [a-k.ben] holds
    the content of [a.zip], and no other path changed. *)
Theorem conflict_avoidance_round_trip (w : World) (p : Path) (c : string)
    (verify_zip : bool) :
  name p = "a.zip" → fs w !! p = Some (File c) → zv c = true →
  exists_in (fs w) (replace_name p "a.ben") →
  ∃ k, (1 ≤ k)%nat ∧
    let a_ben := replace_name p "a.ben" in
    let a_k_ben := "a-" +:+ pretty k +:+ ".ben" in
    let final := replace_name p a_k_ben in
    (∀ j, (1 ≤ j < k)%nat →
       exists_in (fs w) (replace_name p ("a-" +:+ pretty j +:+ ".ben")))
    ∧ fs w !! final = None
    ∧ (fs w !! replace_name p "a-1.ben" = None → k = 1%nat)
    ∧ change_extension zv p ".ben" verify_zip false false w
      = Some (Ok (true, "Renamed: a.zip -> " +:+ a_k_ben
                        +:+ " (renamed to avoid conflict: " +:+ a_k_ben +:+ ")"),
              moved w p final c)
    ∧ fs (moved w p final c) !! a_ben = fs w !! a_ben
    ∧ fs (moved w p final c) !! p = None
    ∧ fs (moved w p final c) !! final = Some (File c)
    ∧ ∀ q, q ≠ p → q ≠ final → fs (moved w p final c) !! q = fs w !! q.
Proof.
  intros Hname Hp Hz Hben.
  destruct (change_extension_renames zv w p c ".ben" ".ben" verify_zip)
    as (final & Hrun & Hnone & Hch);
    [done | by apply wf_name_a_zip | done | apply valid_suffix_dot_ben
    | by right |].
  rewrite dest_a_zip in Hrun, Hch by done.
  destruct Hch as [[Hfree _]|(_ & k & Hk & -> & Hbelow)].
  { destruct Hben as [n Hn]. congruence. }
  rewrite candidate_a_ben in Hrun, Hnone.
  exists k. split; [done|]. simpl.
  pose proof (a_k_ben_ne_a_ben p k) as Hne1.
  pose proof (a_k_ben_ne_a_zip p k Hname) as Hne2.
  pose proof (a_zip_ne_a_ben p Hname) as Hne3.
  repeat split.
  - intros j Hj. rewrite <-candidate_a_ben. by apply Hbelow.
  - done.
  - intros Hone. destruct (decide (k = 1%nat)) as [|Hk1]; [done|].
    destruct (Hbelow 1%nat) as [n Hn]; [lia|].
    rewrite candidate_a_ben in Hn.
    change ("a-" +:+ pretty 1%nat +:+ ".ben") with "a-1.ben" in Hn.
    congruence.
  - rewrite Hrun. unfold renamed_msg.
    rewrite decide_False, name_replace_name, Hname by done. reflexivity.
  - by apply moved_lookup_other.
  - by apply moved_lookup_src.
  - apply moved_lookup_dst.
  - intros q Hq1 Hq2. by apply moved_lookup_other.
Qed.

(** C2.  Let [a.zip] be a regular file holding a valid ZIP.
    [change_extension] to [".ben"] with [overwrite = True] and
    [dry_run = False] makes one [os.replace] call, from [a.zip] to
    [a.ben]: when [a.ben] is an existing file its content is discarded
    for that of [a.zip]; when [a.ben] does not exist the file is renamed
    to that exact path.  Either way [a.zip] is gone afterwards, [a.ben]
    holds what [a.zip] held and no other path changed. *)
Theorem overwrite_semantics (w : World) (p : Path) (c : string)
    (verify_zip : bool) :
  name p = "a.zip" → fs w !! p = Some (File c) → zv c = true →
  let a_ben := replace_name p "a.ben" in
  (∀ old, fs w !! a_ben = Some (File old) →
     change_extension zv p ".ben" verify_zip true false w
     = Some (Ok (true, "Renamed (overwrote): a.zip -> a.ben"),
             moved w p a_ben c))
  ∧ (fs w !! a_ben = None →
     change_extension zv p ".ben" verify_zip true false w
     = Some (Ok (true, "Renamed: a.zip -> a.ben"), moved w p a_ben c))
  ∧ fs (moved w p a_ben c) !! a_ben = Some (File c)
  ∧ fs (moved w p a_ben c) !! p = None
  ∧ calls (moved w p a_ben c) = (calls w ++ [(p, a_ben)])%list
  ∧ ∀ q, q ≠ p → q ≠ a_ben → fs (moved w p a_ben c) !! q = fs w !! q.
Proof.
  intros Hname Hp Hz a_ben.
  pose proof (a_zip_ne_a_ben p Hname) as Hne.
  assert (with_suffix p ".ben" = Ok a_ben) as Hs.
  { rewrite with_suffix_ok;
      [by rewrite dest_a_zip | by apply wf_name_a_zip | apply valid_suffix_dot_ben]. }
  assert (∀ b : bool,
    fs w !! a_ben ≠ Some Dir →
    bool_decide (exists_in (fs w) a_ben) = b →
    change_extension zv p ".ben" verify_zip true false w
    = Some (Ok (true, if b then "Renamed (overwrote): a.zip -> a.ben"
                      else "Renamed: a.zip -> a.ben"), moved w p a_ben c))
    as Hrun.
  { intros b Hd Hb.
    rewrite (change_extension_past_gate zv w p ".ben" ".ben" c)
      by (done || by right).
    rewrite (change_extension_overwrite zv w p a_ben ".ben" ".ben" c) by done.
    rewrite Hb. unfold a_ben. rewrite name_replace_name, Hname.
    by destruct b. }
  repeat split.
  - intros old Hold. apply (Hrun true); [congruence|].
    apply bool_decide_eq_true_2. by exists (File old).
  - intros Hnone. apply (Hrun false); [congruence|].
    apply bool_decide_eq_false_2. intros [n Hn]. congruence.
  - apply moved_lookup_dst.
  - by apply moved_lookup_src.
  - intros q Hq1 Hq2. by apply moved_lookup_other.
Qed.

End ConflictAndOverwrite.

Lemma conflict_avoidance_round_trip_witness :
  let p := Path_of_string "a.zip" in
  let w := mkWorld {[ p := File "PK-archive";
                      Path_of_string "a.ben" := File "old" ]} [] [] in
  ∃ k : nat, change_extension (String.prefix "PK") p ".ben" true false false w
       = Some (Ok (true, "Renamed: a.zip -> " +:+ ("a-" +:+ pretty k +:+ ".ben")
                         +:+ " (renamed to avoid conflict: "
                         +:+ ("a-" +:+ pretty k +:+ ".ben") +:+ ")"),
               moved w p (replace_name p ("a-" +:+ pretty k +:+ ".ben"))
                 "PK-archive").
Proof.
  intros p w.
  destruct (conflict_avoidance_round_trip (String.prefix "PK") w p
              "PK-archive" true) as (k & _ & _ & _ & _ & Hrun & _);
    [by_evaluation..|].
  by exists k.
Defined.

Lemma overwrite_semantics_witness :
  let p := Path_of_string "a.zip" in
  let w := mkWorld {[ p := File "PK-archive";
                      Path_of_string "a.ben" := File "old" ]} [] [] in
  change_extension (String.prefix "PK") p ".ben" true true false w
  = Some (Ok (true, "Renamed (overwrote): a.zip -> a.ben"),
          moved w p (replace_name p "a.ben") "PK-archive").
Proof.
  intros p w.
  destruct (overwrite_semantics (String.prefix "PK") w p "PK-archive" true)
    as (Hrun & _); [by_evaluation..|].
  apply (Hrun "old"). by_evaluation.
Defined.

(** ** Dry runs *)

Section DryRun.

Variable zv : string → bool.

(** With [dry_run] the call always has an outcome and the state after it is
    the state before it. *)
Lemma change_extension_dry_run_total (w : World) (p : Path) (ext : string)
    (verify_zip overwrite : bool) :
  ∃ r, change_extension zv p ext verify_zip overwrite true w = Some (r, w).
Proof.
  destruct (fs w !! p) as [[c|]|] eqn:Hp.
  2,3: eexists; apply change_extension_not_file; intros c'; congruence.
  destruct (ensure_dot_prefix ext) as [ext'|e] eqn:He.
  2: { eexists. by apply (change_extension_bad_extension zv w p ext c e). }
  assert (verify_zip = true ∧ zv c = false ∨ passes_gate zv verify_zip c)
    as [[-> Hz]|Hgate].
  { unfold passes_gate. destruct verify_zip, (zv c); auto. }
  { eexists. by apply (change_extension_skip zv w p ext ext' c). }
  rewrite (change_extension_past_gate zv w p ext ext' c) by done.
  destruct (with_suffix p ext') as [dst|e] eqn:Hs.
  - eexists. by apply (change_extension_dry_run zv w p dst ext ext' c).
  - eexists. by apply (change_extension_bad_suffix zv w p ext ext' c e).
Qed.

(** C4.  Whatever the path, the extension and the flags [verify_zip] and
    [overwrite], a call of [change_extension] with [dry_run = True] has an
    outcome and leaves the state, hence the file system, exactly as it was:
    no [os.replace] call is made.  A call with [dry_run = False] that
    reports success has made exactly one [os.replace] call, whose source is
    the file. *)
Theorem dry_run_no_mutation (w : World) (p : Path) (ext : string)
    (verify_zip overwrite : bool) :
  (∃ r, change_extension zv p ext verify_zip overwrite true w = Some (r, w))
  ∧ (∀ msg w',
       change_extension zv p ext verify_zip overwrite false w
       = Some (Ok (true, msg), w') →
       ∃ dst, calls w' = (calls w ++ [(p, dst)])%list).
Proof.
  split; [apply change_extension_dry_run_total|].
  intros msg w' H.
  apply change_extension_effect in H as [[_ H]|(_ & _ & Hcalls & _)]; [|done].
  by specialize (H msg eq_refl).
Qed.

End DryRun.

Lemma dry_run_no_mutation_witness :
  let p := Path_of_string "a.zip" in
  let w := mkWorld {[ p := File "PK-archive" ]} [] [] in
  ∃ dst, calls (moved w p (Path_of_string "a.ben") "PK-archive")
         = (calls w ++ [(p, dst)])%list.
Proof.
  intros p w.
  destruct (dry_run_no_mutation (String.prefix "PK") w p ".ben" true false)
    as [_ H].
  apply (H "Renamed: a.zip -> a.ben"). by_evaluation.
Defined.

(** ** The verification gate *)

Section Gate.

Variable zv : string → bool.



End Gate.


(** ** The message of a dry run *)

Section DryRunMessage.

Variable zv : string → bool.

(** Without [overwrite], when the naive destination exists, the dry run
    names the naive destination while the real run goes to another path. *)
Lemma dry_run_names_naive_destination (w : World) (p : Path)
    (c ext ext' : string) (verify_zip : bool) :
  fs w !! p = Some (File c) → wf_name p →
  ensure_dot_prefix ext = Ok ext' → valid_suffix ext' →
  passes_gate zv verify_zip c → exists_in (fs w) (dest p ext') →
  change_extension zv p ext verify_zip false true w
  = Some (Ok (true, "Would rename: " +:+ name p +:+ " -> "
                    +:+ name (dest p ext')), w)
  ∧ ∃ final,
      final ≠ dest p ext'
      ∧ change_extension zv p ext verify_zip false false w
        = Some (Ok (true, renamed_msg p final (dest p ext')), moved w p final c).
Proof.
  intros Hp Hwf He Hv Hgate Hex. split.
  - rewrite (change_extension_past_gate zv w p ext ext' c) by done.
    rewrite (change_extension_dry_run zv w p (dest p ext') ext ext' c);
      [|done|done|by apply with_suffix_ok].
    simpl. by rewrite StrFacts.app_nil_r.
  - destruct (change_extension_renames zv w p c ext ext' verify_zip)
      as (final & Hrun & Hnone & Hch); [done..|].
    exists final. split; [|done]. intros ->.
    destruct Hex as [n Hn]. congruence.
Qed.

(** When the naive destination is free, the dry run is accurate: it names
    the path the real run renames to. *)
Lemma dry_run_accurate_when_free (w : World) (p : Path)
    (c ext ext' : string) (verify_zip : bool) :
  fs w !! p = Some (File c) → wf_name p →
  ensure_dot_prefix ext = Ok ext' → valid_suffix ext' →
  passes_gate zv verify_zip c → fs w !! dest p ext' = None →
  change_extension zv p ext verify_zip false true w
  = Some (Ok (true, "Would rename: " +:+ name p +:+ " -> "
                    +:+ name (dest p ext')), w)
  ∧ change_extension zv p ext verify_zip false false w
    = Some (Ok (true, renamed_msg p (dest p ext') (dest p ext')),
            moved w p (dest p ext') c).
Proof.
  intros Hp Hwf He Hv Hgate Hfree. split.
  - rewrite (change_extension_past_gate zv w p ext ext' c) by done.
    rewrite (change_extension_dry_run zv w p (dest p ext') ext ext' c);
      [|done|done|by apply with_suffix_ok].
    simpl. by rewrite StrFacts.app_nil_r.
  - destruct (change_extension_renames zv w p c ext ext' verify_zip)
      as (final & Hrun & Hnone & [[_ ->]|([n Hn] & _)]); [done..| |congruence].
    done.
Qed.

End DryRunMessage.

(** C9, at [a.zip] beside an existing [a.ben], without [overwrite].  The
    dry run announces the rename [a.zip -> a.ben]; the real run from the same
    state and with the same flags renames [a.zip] to [a-1.ben].  The
    destination the dry run names is not the one the real run uses. *)
Theorem dry_run_message_at_conflict :
  let p := Path_of_string "a.zip" in
  let w := mkWorld {[ p := File "PK-archive";
                      Path_of_string "a.ben" := File "old" ]} [] [] in
  change_extension (String.prefix "PK") p ".ben" true false true w
  = Some (Ok (true, "Would rename: a.zip -> a.ben"), w)
  ∧ change_extension (String.prefix "PK") p ".ben" true false false w
    = Some (Ok (true, "Renamed: a.zip -> a-1.ben (renamed to avoid conflict: a-1.ben)"),
            moved w p (Path_of_string "a-1.ben") "PK-archive").
Proof. split; vm_compute; reflexivity. Qed.


(** ** Files that already carry the target extension *)

Section RfindFacts.
Import StrFacts.








End RfindFacts.

Section SameExtension.
Import StrFacts.






End SameExtension.

Section AlreadyConverted.

Variable zv : string → bool.




End AlreadyConverted.



(** ** [expand_inputs] *)

Section ExpandInputs.

Variable glob_glob : gmap Path node → string → list string.
Variable resolve : gmap Path node → Path → Path.

Lemma expand_matches_spec (matches : list Path) :
  ∀ (st : gset Path * list Path) (w : World),
    expand_inv st →
    ∃ st', expand_matches resolve matches st w = Some (Ok st', w)
           ∧ expand_inv st'
           ∧ (matches ≠ [] ∨ st.2 ≠ [] → st'.2 ≠ []).
Proof.
  induction matches as [|p ms IH]; intros [seen results] w [Hseen Hnd].
  { exists (seen, results). simpl. split; [done|]. split; [done|].
    by intros [?|?]. }
  simpl. munfold.
  set (q := if bool_decide (is_Some (fs w !! p)) then resolve (fs w) p else p).
  destruct (decide (q ∈ seen)) as [Hin|Hnin].
  - destruct (IH (seen, results) w) as (st' & Hrun & Hinv & Hne); [done|].
    exists st'. split; [done|]. split; [done|]. intros _. apply Hne. right.
    simpl. apply Hseen in Hin. simpl in Hin. intros ->. by apply not_elem_of_nil in Hin.
  - destruct (IH ({[q]} ∪ seen, (results ++ [q])%list) w)
      as (st' & Hrun & Hinv & Hne).
    { split; simpl.
      - intros x. rewrite elem_of_union, elem_of_singleton, elem_of_app,
          list_elem_of_singleton. specialize (Hseen x). simpl in Hseen. tauto.
      - apply NoDup_app. split; [done|]. split; [|apply NoDup_singleton].
        intros x Hx ->%list_elem_of_singleton. apply Hnin. by apply Hseen. }
    exists st'. split; [done|]. split; [done|]. intros _. apply Hne. right.
    simpl. by destruct results.
Qed.

Lemma expand_items_spec (items : list string) :
  ∀ (st : gset Path * list Path) (w : World),
    expand_inv st →
    ∃ st', expand_items glob_glob resolve items st w = Some (Ok st', w)
           ∧ expand_inv st'
           ∧ (items ≠ [] ∨ st.2 ≠ [] → st'.2 ≠ []).
Proof.
  induction items as [|item items IH]; intros st w Hinv.
  { exists st. simpl. split; [done|]. split; [done|]. by intros [?|?]. }
  simpl. munfold.
  set (matches := if decide (Path_of_string <$> glob_glob (fs w) item = [])
                  then [Path_of_string item]
                  else Path_of_string <$> glob_glob (fs w) item).
  assert (matches ≠ []) as Hms by (unfold matches; by case_decide).
  destruct (expand_matches_spec matches st w Hinv) as (st1 & Hrun1 & Hinv1 & Hne1).
  rewrite Hrun1.
  destruct (IH st1 w Hinv1) as (st' & Hrun & Hinv' & Hne).
  exists st'. split; [done|]. split; [done|]. intros _. apply Hne. right.
  apply Hne1. by left.
Qed.

(** [expand_inputs] always answers, leaves the state alone, lists no path
    twice, and lists at least one path as soon as one input is given. *)
Lemma expand_inputs_spec (items : list string) (w : World) :
  ∃ files, expand_inputs glob_glob resolve items w = Some (Ok files, w)
           ∧ NoDup files ∧ (items ≠ [] → files ≠ []).
Proof.
  destruct (expand_items_spec items (∅, []) w) as (st' & Hrun & [_ Hnd] & Hne).
  { split; simpl; [|apply NoDup_nil_2]. intros q. set_solver. }
  exists st'.2. unfold expand_inputs. munfold. rewrite Hrun.
  split; [done|]. split; [done|]. intros H. apply Hne. by left.
Qed.

End ExpandInputs.


(** ** [main] *)

Section Main.

Variable zv : string → bool.
Variable glob_glob : gmap Path node → string → list string.
Variable resolve : gmap Path node → Path → Path.
Variable parse_args : list string → result Namespace.







End Main.




(** ** Inputs that match nothing *)

Section NoMatch.

Variable zv : string → bool.
Variable glob_glob : gmap Path node → string → list string.
Variable resolve : gmap Path node → Path → Path.
Variable parse_args : list string → result Namespace.

(** As soon as one input is given, [main] enters its loop: the branch that
    prints "No files matched the provided paths/patterns." is never taken. *)
Lemma main_enters_loop (argv : list string) (args : Namespace) (w : World) :
  parse_args argv = Ok args → (paths args ++ pattern args)%list ≠ [] →
  ∃ files, files ≠ []
    ∧ expand_inputs glob_glob resolve (paths args ++ pattern args)%list w
      = Some (Ok files, w)
    ∧ main zv glob_glob resolve parse_args argv w
      = (overall_ok <- main_loop zv args files true ;;
         ret (if overall_ok then 0%Z else 1%Z)) w.
Proof.
  intros Hparse Hinputs.
  destruct (expand_inputs_spec glob_glob resolve
              (paths args ++ pattern args)%list w) as (files & Hex & _ & Hne).
  exists files. split; [by apply Hne|]. split; [done|].
  unfold main. munfold. rewrite Hparse. simpl.
  rewrite decide_False by done. rewrite Hex.
  by rewrite decide_False by (by apply Hne).
Qed.

(** One input that [glob] does not match and that names nothing is passed
    on as a literal path and skipped as "not a file". *)
Lemma main_unmatched_input (argv : list string) (args : Namespace)
    (item : string) (w : World) :
  parse_args argv = Ok args → (paths args ++ pattern args)%list = [item] →
  glob_glob (fs w) item = [] → fs w !! Path_of_string item = None →
  main zv glob_glob resolve parse_args argv w
  = Some (Ok 1%Z, printed w ("Skip: '" +:+ str (Path_of_string item)
                             +:+ "' is not a file.")).
Proof.
  intros Hparse Hinputs Hglob Hnone.
  unfold main, expand_inputs. munfold. rewrite Hparse. simpl.
  rewrite Hinputs. simpl. munfold. rewrite Hglob. simpl. munfold.
  rewrite Hnone. simpl.
  rewrite (decide_False (P := Path_of_string item ∈ ∅)) by set_solver. simpl.
  munfold.
  rewrite change_extension_not_file by (intros c; congruence).
  reflexivity.
Qed.

End NoMatch.

(** C8, at the single pattern ["*.zip"] in an empty directory, where [glob]
    finds nothing.  The program prints "Skip: '*.zip' is not a file.", not
    "No files matched the provided paths/patterns."; it does exit with
    status 1 and touches no file. *)
Theorem main_unmatched_pattern :
  let parse_args := λ argv, Ok (mkNamespace argv [] ".ben" false false false) in
  let w := mkWorld ∅ [] [] in
  main (String.prefix "PK") (λ _ _, []) (λ _ p, p) parse_args ["*.zip"] w
  = Some (Ok 1%Z, mkWorld ∅ [] ["Skip: '*.zip' is not a file."]).
Proof. vm_compute. reflexivity. Qed.


(** * Further properties of the code *)

(** ** [next_available_path] on any path *)

Section NextAvailablePathGeneral.

Lemma with_name_shape (p q : Path) (n : string) :
  with_name p n = Ok q → q = replace_name p n.
Proof.
  unfold with_name. case_decide; [done|].
  destruct (_ || _); [done|]. by intros [= <-].
Qed.

(** On the nominal operating system no test of existence raises. *)
Lemma next_available_path_general (w : World) (target : Path) :
  ∃ r, next_available_path target w = Some (r, w)
       ∧ (∀ q, r = Ok q →
            fs w !! q = None
            ∧ (q = target ∨ ∃ k, (1 ≤ k)%nat ∧ q = candidate target k))
       ∧ (∀ e, r = Raise e → ∃ msg, e = ValueError msg).
Proof.
  destruct (next_available_path_answers w target) as (r & Hrun & Hok & _).
  exists r. split; [done|]. split.
  - intros q Hq. destruct (Hok q Hq) as [Hfalse Hshape].
    split; [|done]. by apply exists_false in Hfalse as [_ ?].
  - intros e ->. by apply (next_available_path_raises target w w e).
Qed.

End NextAvailablePathGeneral.

Section AlwaysAnswers.

Context {os : OS}.

(** X1.  On every path, existing or not, well formed or not, and on every
    operating system, [next_available_path] terminates and leaves the state
    as it was.  It either returns a path, for which the test of existence
    answered [False] and which is the target itself or one of its numbered
    candidates, or it raises: the [ValueError] of [with_name], or the
    [OSError] that [stat] failed with on the target or on a candidate, which
    the function does not catch. *)
Theorem next_available_path_always_answers (w : World) (target : Path) :
  ∃ r, next_available_path target w = Some (r, w)
       ∧ (∀ q, r = Ok q →
            exists_ q w = Some (Ok false, w)
            ∧ (q = target ∨ ∃ k, (1 ≤ k)%nat ∧ q = candidate target k))
       ∧ (∀ e, r = Raise e →
            (∃ msg, e = ValueError msg)
            ∨ ∃ q en, (q = target ∨ ∃ k, (1 ≤ k)%nat ∧ q = candidate target k)
                      ∧ stat_error q = Some en
                      ∧ e = OSError1 en (str q)).
Proof. apply next_available_path_answers. Qed.

End AlwaysAnswers.

Lemma next_available_path_always_answers_witness :
  let target := Path_of_string "docs/a.ben" in
  let w := mkWorld {[ target := Dir ]} [] [] in
  ∃ r, next_available_path (os := limits) target w = Some (r, w)
       ∧ ∀ q, r = Ok q → exists_ (os := limits) q w = Some (Ok false, w).
Proof.
  intros target w.
  destruct (next_available_path_always_answers (os := limits) w target)
    as (r & Hrun & Hok & _).
  exists r. split; [exact Hrun|]. intros q Hq. by destruct (Hok q Hq).
Defined.

(** X2.  [next_available_path] is idempotent: the path it returns is free,
    so asking again for that path, in the state the first call left, gives
    the same path back. *)
Theorem next_available_path_idempotent (w w' : World) (target q : Path) :
  next_available_path target w = Some (Ok q, w') →
  next_available_path q w' = Some (Ok q, w').
Proof.
  intros H. destruct (next_available_path_general w target) as (r & Hrun & Hok & _).
  rewrite Hrun in H. injection H as -> <-.
  destruct (Hok q eq_refl) as [Hnone _].
  unfold next_available_path, bind, get_fs.
  by apply next_available_path_fuel_absent.
Qed.

Lemma next_available_path_idempotent_witness :
  let target := Path_of_string "a.ben" in
  let w := mkWorld {[ target := File "old" ]} [] [] in
  next_available_path (Path_of_string "a-1.ben") w
  = Some (Ok (Path_of_string "a-1.ben"), w).
Proof.
  intros target w.
  apply (next_available_path_idempotent w w target). by_evaluation.
Defined.

(** ** [safe_replace] *)

Section SafeReplaceAnyOS.

Context {os : OS}.

(** X3.  Without [overwrite], [safe_replace] never clobbers anything.  Let
    [src] be a regular file and [dst] have a well-formed name, and let
    [stat] fail neither on [dst] nor on the candidates the loop reaches
    (those whose predecessors all exist).  The destination used is
    [dst] when that was free and the first free numbered candidate
    otherwise; it did not exist before.  When [rename] accepts the pair,
    [safe_replace] returns that path; after the call it holds the content
    of [src], [src] is gone, and every other path that existed, [dst]
    included, is exactly as it was.  When [rename] fails, for a missing
    directory above the destination say, its [OSError] escapes, nothing has
    moved and the file system is as it was. *)
Theorem safe_replace_without_overwrite (w : World) (src dst : Path)
    (c : string) :
  fs w !! src = Some (File c) → wf_name dst →
  stat_error dst = None →
  (∀ j, (1 ≤ j)%nat →
     (∀ l, (1 ≤ l < j)%nat →
        exists_ (candidate dst l) w = Some (Ok true, w)) →
     stat_error (candidate dst j) = None) →
  ∃ final,
    next_available_path dst w = Some (Ok final, w)
    ∧ chosen (fs w) dst final
    ∧ fs w !! final = None
    ∧ (rename_error (fs w) src final = None →
       safe_replace src dst false w = Some (Ok final, moved w src final c)
       ∧ fs (moved w src final c) !! final = Some (File c)
       ∧ fs (moved w src final c) !! src = None
       ∧ ∀ q, q ≠ src → exists_in (fs w) q →
              fs (moved w src final c) !! q = fs w !! q)
    ∧ (∀ e, rename_error (fs w) src final = Some e →
       safe_replace src dst false w
       = Some (Raise (OSError e (str src) (str final)),
               attempted w src final)).
Proof.
  intros Hsrc Hwf Hdst Hstat.
  assert (∃ final, next_available_path dst w = Some (Ok final, w)
                   ∧ chosen (fs w) dst final ∧ fs w !! final = None)
    as (final & Hrun & Hch & Hnone).
  { destruct (fs w !! dst) as [n|] eqn:Hd.
    - destruct (next_available_path_fuel_least w dst)
        as (k & Hk & Hnone & _ & Hbelow & Hrun);
        [apply exists_true; eauto | done | done |].
      exists (candidate dst k). split; [|split; [|done]].
      + unfold next_available_path, bind, get_fs. apply Hrun. lia.
      + right. split; [by exists n|]. exists k. split; [lia|].
        split; [done|]. intros j Hj. by destruct (Hbelow j Hj).
    - exists dst. split; [|split; [by left | done]].
      unfold next_available_path, bind, get_fs.
      by apply next_available_path_fuel_false, exists_false. }
  exists final. split; [done|]. split; [done|]. split; [done|]. split.
  - intros Hr. split.
    { unfold safe_replace, bind, ret. rewrite Hrun.
      rewrite (os_replace_moves w src final c);
        [done | done | done | by rewrite Hnone | by right]. }
    split; [apply moved_lookup_dst|].
    assert (final ≠ src) as Hne by (intros ->; congruence).
    split; [by apply moved_lookup_src|].
    intros q Hq [n Hn]. apply moved_lookup_other; [done|]. intros ->. congruence.
  - intros e He. unfold safe_replace, bind, ret. rewrite Hrun.
    by rewrite (os_replace_error w src final e).
Qed.

(** X4.  With [overwrite], [safe_replace] of a regular file goes to [dst]
    itself, in one [os.replace] call, when [dst] is a regular file or does
    not exist.  When [rename] accepts the pair and the two are not names of
    one file, it returns [dst], which then holds the content of [src]; [src]
    is gone, no path other than [src] and [dst] has changed, and replacing a
    file by itself leaves the file system as it was.  When the two are hard
    links to one file, it returns [dst] and nothing has moved: [src] is
    still there.  When [rename] fails, for a missing directory above [dst]
    say, its [OSError] escapes and the file system is as it was. *)
Theorem safe_replace_with_overwrite (w : World) (src dst : Path) (c : string) :
  fs w !! src = Some (File c) → fs w !! dst ≠ Some Dir →
  (rename_error (fs w) src dst = None →
   same_file src dst = false ∨ fs w !! dst = None →
   safe_replace src dst true w = Some (Ok dst, moved w src dst c)
   ∧ fs (moved w src dst c) !! dst = Some (File c)
   ∧ (src ≠ dst → fs (moved w src dst c) !! src = None)
   ∧ (src = dst → fs (moved w src dst c) = fs w)
   ∧ ∀ q, q ≠ src → q ≠ dst → fs (moved w src dst c) !! q = fs w !! q)
  ∧ (rename_error (fs w) src dst = None →
     same_file src dst = true → exists_in (fs w) dst →
     safe_replace src dst true w = Some (Ok dst, attempted w src dst)
     ∧ fs (attempted w src dst) = fs w)
  ∧ (∀ e, rename_error (fs w) src dst = Some e →
     safe_replace src dst true w
     = Some (Raise (OSError e (str src) (str dst)), attempted w src dst)
     ∧ fs (attempted w src dst) = fs w).
Proof.
  intros Hsrc Hdst. split; [|split].
  - intros Hr Hsame. split.
    { unfold safe_replace, bind, ret.
      by rewrite (os_replace_moves w src dst c). }
    split; [apply moved_lookup_dst|]. split; [apply moved_lookup_src|].
    split; [by intros <-; apply moved_same|].
    intros q Hq1 Hq2. by apply moved_lookup_other.
  - intros Hr Hsame [[c'|] Hn]; [|done]. split; [|done].
    unfold safe_replace, bind, ret.
    by rewrite (os_replace_same_file w src dst c c').
  - intros e He. split; [|done]. unfold safe_replace, bind, ret.
    by rewrite (os_replace_error w src dst e).
Qed.

End SafeReplaceAnyOS.

Lemma safe_replace_without_overwrite_witness :
  let src := Path_of_string "in/a.zip" in
  let dst := Path_of_string "out/a.ben" in
  let w := mkWorld {[ Path_of_string "in" := Dir; Path_of_string "out" := Dir;
                      src := File "PK"; dst := Dir ]} [] [] in
  ∃ final,
    safe_replace (os := limits) src dst false w
    = Some (Ok final, moved w src final "PK")
    ∧ fs (moved w src final "PK") !! dst = Some Dir.
Proof.
  intros src dst w.
  destruct (safe_replace_without_overwrite (os := limits) w src dst "PK")
    as (final & Hrun & _ & _ & Hok & _).
  - vm_compute. reflexivity.
  - by_evaluation.
  - vm_compute. reflexivity.
  - intros j Hj Hreached. destruct (decide (j = 1)) as [->|Hne].
    + vm_compute. reflexivity.
    + specialize (Hreached 1%nat ltac:(lia)). vm_compute in Hreached.
      discriminate.
  - assert (final = Path_of_string "out/a-1.ben") as ->.
    { vm_compute in Hrun. by injection Hrun as <-. }
    destruct Hok as (Hsafe & _ & _ & Hframe); [vm_compute; reflexivity|].
    exists (Path_of_string "out/a-1.ben"). split; [exact Hsafe|].
    rewrite Hframe; by_evaluation.
Defined.

Lemma safe_replace_with_overwrite_witness :
  let src := Path_of_string "a.zip" in
  let dst := Path_of_string "missing/a.ben" in
  let w := mkWorld {[ src := File "PK" ]} [] [] in
  safe_replace (os := limits) src dst true w
  = Some (Raise (OSError ENOENT "a.zip" "missing/a.ben"), attempted w src dst).
Proof.
  intros src dst w.
  destruct (safe_replace_with_overwrite (os := limits) w src dst "PK")
    as (_ & _ & H).
  - vm_compute. reflexivity.
  - vm_compute. discriminate.
  - destruct (H ENOENT) as [Hrun _]; [vm_compute; reflexivity|].
    exact Hrun.
Defined.

Section SafeReplace.




End SafeReplace.

(** ** [change_extension]: composition, frame and exceptions *)

Section ChangeExtensionMore.

Variable zv : string → bool.

Lemma with_suffix_shape (p d : Path) (e : string) :
  with_suffix p e = Ok d → ∃ n, d = replace_name p n.
Proof.
  unfold with_suffix. destruct (Str.contains _ _); [done|].
  destruct (_ || _); [done|]. case_decide; [done|]. intros [= <-]. eauto.
Qed.

(** What a call does to the file system: nothing, or it moves the regular
    file [p] onto a path beside it. *)
Lemma change_extension_fs_effect (w w' : World) (p : Path) (ext : string)
    (verify_zip overwrite dry_run : bool) (r : result (bool * string)) :
  change_extension zv p ext verify_zip overwrite dry_run w = Some (r, w') →
  fs w' = fs w
  ∨ ∃ c n, fs w !! p = Some (File c)
           ∧ w' = moved w p (replace_name p n) c
           ∧ (overwrite = false → fs w !! replace_name p n = None)
           ∧ dry_run = false ∧ ∃ msg, r = Ok (true, msg).
Proof.
  intros H.
  destruct (fs w !! p) as [[c|]|] eqn:Hp.
  2,3: rewrite change_extension_not_file in H by (intros c'; congruence);
       injection H as <- <-; by left.
  destruct (ensure_dot_prefix ext) as [ext'|e] eqn:He.
  2: { rewrite (change_extension_bad_extension zv w p ext c e) in H by done.
       injection H as <- <-. by left. }
  assert (verify_zip = true ∧ zv c = false ∨ passes_gate zv verify_zip c)
    as [[-> Hz]|Hgate].
  { unfold passes_gate. destruct verify_zip, (zv c); auto. }
  { rewrite (change_extension_skip zv w p ext ext' c) in H by done.
    injection H as <- <-. by left. }
  rewrite (change_extension_past_gate zv w p ext ext' c) in H by done.
  destruct (with_suffix p ext') as [dst|e] eqn:Hs.
  2: { rewrite (change_extension_bad_suffix zv w p ext ext' c e) in H by done.
       injection H as <- <-. by left. }
  destruct (with_suffix_shape p dst ext' Hs) as [n ->].
  destruct dry_run.
  { rewrite (change_extension_dry_run zv w p (replace_name p n) ext ext' c) in H
      by done.
    injection H as <- <-. by left. }
  destruct overwrite.
  - destruct (decide (fs w !! replace_name p n = Some Dir)) as [Hd|Hd].
    + rewrite (change_extension_overwrite_dir zv w p (replace_name p n) ext ext' c)
        in H by done.
      injection H as <- <-. by left.
    + rewrite (change_extension_overwrite zv w p (replace_name p n) ext ext' c)
        in H by done.
      injection H as <- <-. right. exists c, n.
      split; [done|]. split; [done|]. split; [done|]. split; [done|]. eauto.
  - revert H. unfold change_extension, is_zip_file, try_except_OSError.
    munfold. rewrite Hp, He, Hs. simpl.
    destruct (next_available_path_general w (replace_name p n))
      as (r0 & Hrun & Hok & Hraise).
    rewrite Hrun. destruct r0 as [final|e].
    + destruct (Hok final eq_refl) as [Hnone Hshape].
      rewrite (os_replace_file w p final c) by (done || by rewrite Hnone).
      intros [= <- <-]. right.
      assert (∃ n', final = replace_name p n') as [n' ->].
      { destruct Hshape as [->|(k & _ & ->)]; [eauto|].
        unfold candidate. rewrite replace_replace. eauto. }
      exists c, n'.
      split; [done|]. split; [done|]. split; [done|]. split; [done|]. eauto.
    + destruct (Hraise e eq_refl) as [msg ->]. intros [= <- <-]. by left.
Qed.

(** X6.  Without [overwrite], [change_extension] never modifies an entry
    that is already there: whatever the outcome, every existing path other
    than the source is exactly as before.  The content of the source is
    never lost: the source is either still in place, or its content sits at
    a path that did not exist before. *)
Theorem change_extension_never_clobbers (w w' : World) (p : Path)
    (ext : string) (verify_zip dry_run : bool) (r : result (bool * string)) :
  change_extension zv p ext verify_zip false dry_run w = Some (r, w') →
  (∀ q, q ≠ p → exists_in (fs w) q → fs w' !! q = fs w !! q)
  ∧ (∀ c, fs w !! p = Some (File c) →
       fs w' !! p = Some (File c)
       ∨ ∃ final, fs w !! final = None ∧ fs w' !! final = Some (File c)
                  ∧ fs w' !! p = None).
Proof.
  intros H.
  apply change_extension_fs_effect in H
    as [Hsame|(c & n & Hp & -> & Hfree & _ & _)].
  - rewrite Hsame. split; [done|]. intros c Hc. by left.
  - specialize (Hfree eq_refl). split.
    + intros q Hq [nd Hnd]. apply moved_lookup_other; [done|].
      intros ->. congruence.
    + intros c' Hc'. right. exists (replace_name p n).
      assert (c' = c) as -> by congruence.
      split; [done|]. split; [apply moved_lookup_dst|].
      apply moved_lookup_src. intros E. rewrite <-E in Hfree. congruence.
Qed.

(** X7.  Whatever the flags and the outcome, [change_extension] changes
    nothing outside the directory of its argument: a path whose entry
    differs after the call has the anchor and the parent components of the
    argument. *)
Theorem change_extension_stays_in_directory (w w' : World) (p q : Path)
    (ext : string) (verify_zip overwrite dry_run : bool)
    (r : result (bool * string)) :
  change_extension zv p ext verify_zip overwrite dry_run w = Some (r, w') →
  fs w' !! q ≠ fs w !! q →
  anchor q = anchor p ∧ removelast (parts q) = removelast (parts p).
Proof.
  intros H Hq.
  apply change_extension_fs_effect in H
    as [Hsame|(c & n & Hp & -> & _)]; [by rewrite Hsame in Hq|].
  destruct (decide (q = p)) as [->|Hne]; [done|].
  destruct (decide (q = replace_name p n)) as [->|Hne'].
  - simpl. by rewrite removelast_last.
  - by rewrite moved_lookup_other in Hq.
Qed.

End ChangeExtensionMore.

Lemma change_extension_never_clobbers_witness :
  let p := Path_of_string "a.zip" in
  let w := mkWorld {[ p := File "PK-archive";
                      Path_of_string "a.ben" := File "old" ]} [] [] in
  fs (moved w p (Path_of_string "a-1.ben") "PK-archive")
    !! Path_of_string "a.ben" = Some (File "old").
Proof.
  intros p w.
  destruct (change_extension_never_clobbers (String.prefix "PK") w
              (moved w p (Path_of_string "a-1.ben") "PK-archive") p ".ben"
              true false
              (Ok (true, "Renamed: a.zip -> a-1.ben (renamed to avoid conflict: a-1.ben)")))
    as [H _]; [by_evaluation|].
  rewrite H; by_evaluation.
Defined.

Lemma change_extension_stays_in_directory_witness :
  let p := Path_of_string "docs/a.zip" in
  let w := mkWorld {[ p := File "PK-archive" ]} [] [] in
  anchor (Path_of_string "docs/a.ben") = anchor p
  ∧ removelast (parts (Path_of_string "docs/a.ben")) = removelast (parts p).
Proof.
  intros p w.
  apply (change_extension_stays_in_directory (String.prefix "PK") w
           (moved w p (Path_of_string "docs/a.ben") "PK-archive") p
           (Path_of_string "docs/a.ben") ".ben" true false false
           (Ok (true, "Renamed: a.zip -> a.ben"))); by_evaluation.
Defined.

Section ChangeExtensionOutcomes.

Variable zv : string → bool.

(** X8.  Past its checks, [change_extension] does to the file system what
    [safe_replace] does, although it does not call it: for a regular file
    that passes the gate and whose destination [with_suffix] computes as
    [dst], a real run ends in the state [safe_replace file_path dst
    overwrite] ends in.  It reports success when [safe_replace] returns, turns
    an [OSError] of [safe_replace] into the outcome [False] with the
    "Error renaming" message, and lets any other exception through. *)
Theorem change_extension_as_safe_replace (w : World) (p dst : Path)
    (c ext ext' : string) (verify_zip overwrite : bool) :
  fs w !! p = Some (File c) → ensure_dot_prefix ext = Ok ext' →
  passes_gate zv verify_zip c → with_suffix p ext' = Ok dst →
  match safe_replace p dst overwrite w with
  | Some (Ok final, w') =>
      ∃ msg, change_extension zv p ext verify_zip overwrite false w
             = Some (Ok (true, msg), w')
  | Some (Raise (OSError e src' dst'), w') =>
      change_extension zv p ext verify_zip overwrite false w
      = Some (Ok (false, "Error renaming '" +:+ str p +:+ "': "
                         +:+ str_OSError e src' dst'), w')
  | Some (Raise e, w') =>
      change_extension zv p ext verify_zip overwrite false w
      = Some (Raise e, w')
  | None => change_extension zv p ext verify_zip overwrite false w = None
  end.
Proof.
  intros Hp He Hgate Hs.
  rewrite (change_extension_past_gate zv w p ext ext' c) by done.
  unfold change_extension, is_zip_file, try_except_OSError, safe_replace.
  munfold. rewrite Hp, He, Hs. simpl. destruct overwrite; munfold.
  - destruct (os_replace_effect p dst w)
      as (r0 & w0 & Hr & _ & _ & [->|(_ & e & s & d & ->)]);
      destruct (bool_decide (is_Some (fs w !! dst))); simpl;
      rewrite !Hr; simpl; eauto.
  - destruct (next_available_path dst w) as [[[final|e] w1]|] eqn:Hn; simpl;
      [| |done].
    + destruct (os_replace_effect p final w1)
        as (r0 & w0 & Hr & _ & _ & [->|(_ & e & s & d & ->)]);
        rewrite !Hr; simpl; eauto.
    + by destruct (next_available_path_raises _ _ _ _ Hn) as [msg ->].
Qed.


Lemma with_suffix_raises (p : Path) (ext : string) (e : exn) :
  with_suffix p ext = Raise e → ∃ msg, e = ValueError msg.
Proof.
  unfold with_suffix. destruct (Str.contains _ _); [intros [= <-]; eauto|].
  destruct (_ || _); [intros [= <-]; eauto|].
  case_decide; [intros [= <-]; eauto | done].
Qed.

Global Instance valid_suffix_dec (ext : string) : Decision (valid_suffix ext).
Proof. unfold valid_suffix. apply _. Defined.



End ChangeExtensionOutcomes.

Section ChangeExtensionAnyOS.

Context {os : OS}.
Variable zv : string → bool.

Ltac open_change_extension :=
  unfold change_extension, is_zip_file, try_except_OSError; gunfold.





Lemma change_extension_ungated (w : World) (p : Path) (ext ext' : string)
    (c : string) (verify_zip overwrite dry_run : bool) :
  stat_error p = None → fs w !! p = Some (File c) →
  ensure_dot_prefix ext = Ok ext' → passes_gate zv verify_zip c →
  change_extension zv p ext verify_zip overwrite dry_run w
  = change_extension zv p ext false overwrite dry_run w.
Proof.
  intros Hst Hp He [->|Hz]; [done|]. open_change_extension. rewrite Hst.
  simpl. rewrite Hp, He. simpl.
  destruct verify_zip; [|done]. simpl. by rewrite Hp, Hz.
Qed.





End ChangeExtensionAnyOS.


Lemma change_extension_as_safe_replace_witness :
  let p := Path_of_string "a.zip" in
  let w := mkWorld {[ p := File "PK-archive";
                      Path_of_string "a.ben" := Dir ]} [] [] in
  change_extension (String.prefix "PK") p "ben" true true false w
  = Some (Ok (false, "Error renaming 'a.zip': "
                     +:+ str_OSError EISDIR "a.zip" "a.ben"),
          attempted w p (Path_of_string "a.ben")).
Proof.
  intros p w.
  exact (change_extension_as_safe_replace (String.prefix "PK") w p
           (Path_of_string "a.ben") "PK-archive" "ben" ".ben" true true
           eq_refl eq_refl (or_intror eq_refl) eq_refl).
Defined.


(** ** [expand_inputs] as a function of the inputs *)

Section KeepFirst.

Lemma elem_of_keep_first_fold (l acc : list Path) (p : Path) :
  p ∈ foldl keep_first_step acc l ↔ p ∈ acc ∨ p ∈ l.
Proof.
  revert acc. induction l as [|x l IH]; intros acc; simpl.
  { rewrite elem_of_nil. tauto. }
  rewrite IH, elem_of_cons. unfold keep_first_step.
  case_decide as Hx.
  - split; [tauto|]. intros [?|[->|?]]; auto.
  - rewrite elem_of_app, list_elem_of_singleton. tauto.
Qed.

Lemma NoDup_keep_first_fold (l acc : list Path) :
  NoDup acc → NoDup (foldl keep_first_step acc l).
Proof.
  revert acc. induction l as [|x l IH]; intros acc Hnd; simpl; [done|].
  apply IH. unfold keep_first_step. case_decide as Hx; [done|].
  apply NoDup_app. split; [done|]. split; [|apply NoDup_singleton].
  by intros y Hy ->%list_elem_of_singleton.
Qed.

(** Elements already kept add nothing. *)
Lemma keep_first_fold_seen (l acc : list Path) :
  (∀ p, p ∈ l → p ∈ acc) → foldl keep_first_step acc l = acc.
Proof.
  induction l as [|x l IH]; intros H; simpl; [done|].
  unfold keep_first_step at 2. rewrite decide_True by (apply H; left).
  apply IH. intros p Hp. apply H. by right.
Qed.

(** A list without duplicates is kept as it is. *)
Lemma keep_first_fold_NoDup (l acc : list Path) :
  NoDup (acc ++ l) → foldl keep_first_step acc l = (acc ++ l)%list.
Proof.
  revert acc. induction l as [|x l IH]; intros acc Hnd; simpl.
  { by rewrite app_nil_r. }
  apply NoDup_app in Hnd as (Hacc & Hdisj & Hl).
  apply NoDup_cons in Hl as [Hx Hl].
  unfold keep_first_step at 2. rewrite decide_False.
  2: { intros Hin. apply (Hdisj x Hin). left. }
  rewrite IH; [by rewrite <-app_assoc|].
  rewrite <-app_assoc. simpl. apply NoDup_app. split; [done|].
  split; [|by apply NoDup_cons]. done.
Qed.

End KeepFirst.

Section ExpandInputsAnyOS.

Context {os : OS}.
Variable glob_glob : gmap Path node → string → list string.
Variable resolve : gmap Path node → Path → Path.

Lemma expand_matches_answers (matches : list Path) :
  ∀ (seen : gset Path) (results : list Path) (w : World),
    (∀ q, q ∈ seen ↔ q ∈ results) →
    (∀ p, p ∈ matches → stat_error p = None) →
    ∃ seen',
      expand_matches resolve matches (seen, results) w
      = Some (Ok (seen', foldl keep_first_step results
                           (normalized resolve (fs w) <$> matches)), w)
      ∧ ∀ q, q ∈ seen' ↔ q ∈ foldl keep_first_step results
                                 (normalized resolve (fs w) <$> matches).
Proof.
  induction matches as [|p ms IH]; intros seen results w Hseen Hstat.
  { exists seen. by split. }
  simpl. gunfold. rewrite (Hstat p) by left. simpl.
  fold (normalized resolve (fs w) p).
  set (q := normalized resolve (fs w) p).
  unfold keep_first_step at 2 4.
  assert (∀ p', p' ∈ ms → stat_error p' = None) as Hstat'.
  { intros p' Hp'. apply Hstat. by right. }
  destruct (decide (q ∈ seen)) as [Hin|Hnin].
  - rewrite decide_True by (by apply Hseen). by apply IH.
  - rewrite decide_False by (by rewrite <-Hseen). apply IH; [|done].
    intros x. rewrite elem_of_union, elem_of_singleton, elem_of_app,
      list_elem_of_singleton, Hseen. tauto.
Qed.

Lemma expand_matches_outcome (matches : list Path) :
  ∀ (st : gset Path * list Path) (w : World),
    ∃ r, expand_matches resolve matches st w = Some (r, w)
         ∧ ∀ e, r = Raise e →
             ∃ p en, p ∈ matches ∧ stat_error p = Some en
                     ∧ e = OSError1 en (str p).
Proof.
  induction matches as [|p ms IH]; intros [seen results] w.
  { eexists. split; [done|]. intros e [=]. }
  simpl. gunfold. destruct (stat_error p) as [en|] eqn:Hen.
  { eexists. split; [done|]. intros e [= <-]. exists p, en.
    split; [left | done]. }
  simpl.
  match goal with
  | |- context [expand_matches resolve ms ?st w] =>
      destruct (IH st w) as (r & Hrun & Hraise)
  end.
  exists r. split; [done|]. intros e He.
  destruct (Hraise e He) as (p' & en & Hin & Hst & ->).
  exists p', en. split; [by right | done].
Qed.

Lemma expand_items_answers (items : list string) :
  ∀ (seen : gset Path) (results : list Path) (w : World),
    (∀ q, q ∈ seen ↔ q ∈ results) →
    (∀ item p, item ∈ items → p ∈ expanded glob_glob (fs w) item →
               stat_error p = None) →
    ∃ seen',
      expand_items glob_glob resolve items (seen, results) w
      = Some (Ok (seen', foldl keep_first_step results
                           (items ≫= matches_of glob_glob resolve (fs w))), w).
Proof.
  induction items as [|item items IH]; intros seen results w Hseen Hstat.
  { exists seen. done. }
  simpl. gunfold.
  destruct (expand_matches_answers (expanded glob_glob (fs w) item)
              seen results w Hseen) as (seen1 & Hrun1 & Hseen1).
  { intros p Hp. apply (Hstat item); [left | done]. }
  unfold expanded in Hrun1. simpl in Hrun1. rewrite Hrun1.
  destruct (IH seen1 _ w Hseen1) as (seen' & Hrun).
  { intros item' p Hitem Hp. apply (Hstat item'); [by right | done]. }
  exists seen'. unfold expanded in Hrun. simpl in Hrun. rewrite Hrun.
  by rewrite foldl_app.
Qed.

Lemma expand_items_outcome (items : list string) :
  ∀ (st : gset Path * list Path) (w : World),
    ∃ r, expand_items glob_glob resolve items st w = Some (r, w)
         ∧ ∀ e, r = Raise e →
             ∃ item p en, item ∈ items ∧ p ∈ expanded glob_glob (fs w) item
                          ∧ stat_error p = Some en
                          ∧ e = OSError1 en (str p).
Proof.
  induction items as [|item items IH]; intros st w.
  { eexists. split; [done|]. intros e [=]. }
  simpl. gunfold.
  destruct (expand_matches_outcome (expanded glob_glob (fs w) item) st w)
    as (r1 & Hrun1 & Hraise1).
  unfold expanded in Hrun1. simpl in Hrun1. rewrite Hrun1.
  destruct r1 as [st1|e1].
  - destruct (IH st1 w) as (r & Hrun & Hraise). exists r. split; [done|].
    intros e He. destruct (Hraise e He) as (item' & p & en & Hin & Hp & Hst & ->).
    exists item', p, en. split; [by right | done].
  - eexists. split; [done|]. intros e [= <-].
    destruct (Hraise1 e1 eq_refl) as (p & en & Hp & Hst & ->).
    exists item, p, en. split; [left | done].
Qed.

(** X11.  What [expand_inputs] computes, on any operating system.  Each
    input is expanded to the matches of [glob], or to itself as a literal
    path when there are none.  When [stat] fails on none of these paths, each
    is resolved when it exists, and the result is the concatenation of what
    the inputs contribute, in order, with each path kept at its first
    occurrence only.  In any case the call terminates and leaves the state
    as it was, and the only exception it raises is the [OSError] of a
    failed [stat] on one of these paths, which [p.exists()] lets through. *)
Theorem expand_inputs_first_seen (items : list string) (w : World) :
  ((∀ item p, item ∈ items → p ∈ expanded glob_glob (fs w) item →
              stat_error p = None) →
   expand_inputs glob_glob resolve items w
   = Some (Ok (keep_first (items ≫= matches_of glob_glob resolve (fs w))), w))
  ∧ ∃ r, expand_inputs glob_glob resolve items w = Some (r, w)
         ∧ ∀ e, r = Raise e →
             ∃ item p en, item ∈ items ∧ p ∈ expanded glob_glob (fs w) item
                          ∧ stat_error p = Some en
                          ∧ e = OSError1 en (str p).
Proof.
  split.
  - intros Hstat. unfold expand_inputs. gunfold.
    destruct (expand_items_answers items ∅ [] w) as (seen' & ->);
      [set_solver | done | done].
  - unfold expand_inputs. gunfold.
    destruct (expand_items_outcome items (∅, []) w) as (r & -> & Hraise).
    destruct r as [st|e]; (eexists; split; [done|]).
    + intros e [=].
    + intros e' [= <-]. by apply Hraise.
Qed.

End ExpandInputsAnyOS.

Lemma expand_inputs_first_seen_witness :
  let glob_glob := λ (_ : gmap Path node) (_ : string), @nil string in
  let resolve := λ (_ : gmap Path node) (p : Path), p in
  let w := mkWorld {[ Path_of_string "a.zip" := File "PK" ]} [] [] in
  expand_inputs (os := limits) glob_glob resolve ["a.zip"; "./a.zip"] w
  = Some (Ok [Path_of_string "a.zip"], w).
Proof.
  intros glob_glob resolve w.
  destruct (expand_inputs_first_seen (os := limits) glob_glob resolve
              ["a.zip"; "./a.zip"] w) as [H _].
  rewrite H; [vm_compute; reflexivity|].
  intros item p Hitem Hp.
  apply elem_of_cons in Hitem as [->|Hitem].
  { apply list_elem_of_singleton in Hp as ->. vm_compute. reflexivity. }
  apply list_elem_of_singleton in Hitem as ->.
  apply list_elem_of_singleton in Hp as ->. vm_compute. reflexivity.
Defined.

Section ExpandInputsFunction.

Variable glob_glob : gmap Path node → string → list string.
Variable resolve : gmap Path node → Path → Path.

Lemma expand_matches_fold (matches : list Path) :
  ∀ (seen : gset Path) (results : list Path) (w : World),
    (∀ q, q ∈ seen ↔ q ∈ results) →
    ∃ seen',
      expand_matches resolve matches (seen, results) w
      = Some (Ok (seen', foldl keep_first_step results
                           (normalized resolve (fs w) <$> matches)), w)
      ∧ ∀ q, q ∈ seen' ↔ q ∈ foldl keep_first_step results
                                 (normalized resolve (fs w) <$> matches).
Proof.
  induction matches as [|p ms IH]; intros seen results w Hseen.
  { exists seen. by split. }
  simpl. munfold. fold (normalized resolve (fs w) p).
  set (q := normalized resolve (fs w) p).
  unfold keep_first_step at 2 4.
  destruct (decide (q ∈ seen)) as [Hin|Hnin].
  - rewrite decide_True by (by apply Hseen). by apply IH.
  - rewrite decide_False by (by rewrite <-Hseen). apply IH.
    intros x. rewrite elem_of_union, elem_of_singleton, elem_of_app,
      list_elem_of_singleton, Hseen. tauto.
Qed.

Lemma expand_items_fold (items : list string) :
  ∀ (seen : gset Path) (results : list Path) (w : World),
    (∀ q, q ∈ seen ↔ q ∈ results) →
    ∃ seen',
      expand_items glob_glob resolve items (seen, results) w
      = Some (Ok (seen', foldl keep_first_step results
                           (items ≫= matches_of glob_glob resolve (fs w))), w).
Proof.
  induction items as [|item items IH]; intros seen results w Hseen.
  { exists seen. done. }
  simpl. munfold.
  destruct (expand_matches_fold
              (if decide (Path_of_string <$> glob_glob (fs w) item = [])
               then [Path_of_string item]
               else Path_of_string <$> glob_glob (fs w) item)
              seen results w Hseen) as (seen1 & Hrun1 & Hseen1).
  rewrite Hrun1.
  destruct (IH seen1 _ w Hseen1) as (seen' & Hrun).
  exists seen'. rewrite Hrun. by rewrite foldl_app.
Qed.

Lemma expand_inputs_keep_first (items : list string) (w : World) :
  expand_inputs glob_glob resolve items w
  = Some (Ok (keep_first (items ≫= matches_of glob_glob resolve (fs w))), w).
Proof.
  unfold expand_inputs. munfold.
  destruct (expand_items_fold items ∅ [] w) as (seen' & ->); [set_solver|].
  done.
Qed.

Lemma matches_of_nonempty (m : gmap Path node) (item : string) :
  matches_of glob_glob resolve m item ≠ [].
Proof.
  unfold matches_of. case_decide as E; [done|].
  intros H. apply fmap_nil_inv in H. done.
Qed.

(** X12.  The list [expand_inputs] returns has no duplicate, holds exactly
    the paths the inputs contribute, and is empty only when no input was
    given (an input that matches nothing contributes itself); when the
    contributions are pairwise distinct it is their concatenation as it
    stands. *)
Theorem expand_inputs_members (items : list string) (w : World) :
  ∃ files,
    expand_inputs glob_glob resolve items w = Some (Ok files, w)
    ∧ NoDup files
    ∧ (∀ p, p ∈ files ↔
            ∃ item, item ∈ items
                    ∧ p ∈ matches_of glob_glob resolve (fs w) item)
    ∧ (files = [] ↔ items = [])
    ∧ (NoDup (items ≫= matches_of glob_glob resolve (fs w)) →
       files = items ≫= matches_of glob_glob resolve (fs w)).
Proof.
  eexists. split; [apply expand_inputs_keep_first|]. unfold keep_first.
  split; [apply NoDup_keep_first_fold, NoDup_nil_2|].
  assert (∀ p, p ∈ foldl keep_first_step []
                     (items ≫= matches_of glob_glob resolve (fs w))
               ↔ ∃ item, item ∈ items
                         ∧ p ∈ matches_of glob_glob resolve (fs w) item)
    as Hmem.
  { intros p. rewrite elem_of_keep_first_fold, elem_of_nil, list_elem_of_bind.
    split; [intros [[]|(y & ? & ?)]; eauto | intros (y & ? & ?); eauto]. }
  split; [done|]. split.
  - split.
    + intros Hnil. destruct items as [|item items]; [done|]. exfalso.
      destruct (matches_of glob_glob resolve (fs w) item) as [|q qs] eqn:E.
      { by apply matches_of_nonempty in E. }
      assert (q ∈ @nil Path) as Hq; [|by apply elem_of_nil in Hq].
      rewrite <-Hnil. apply Hmem. exists item. rewrite E. split; left.
    + by intros ->.
  - intros Hnd. by rewrite keep_first_fold_NoDup.
Qed.

(** X13.  Giving an input again changes nothing: when every input of a
    second list occurs in the first, [expand_inputs] of the two lists
    together is [expand_inputs] of the first. *)
Theorem expand_inputs_repeated (items items' : list string) (w : World) :
  (∀ x, x ∈ items' → x ∈ items) →
  expand_inputs glob_glob resolve (items ++ items')%list w
  = expand_inputs glob_glob resolve items w.
Proof.
  intros Hsub. rewrite !expand_inputs_keep_first. do 3 f_equal.
  unfold keep_first. rewrite bind_app, foldl_app.
  apply keep_first_fold_seen. intros p Hp.
  apply elem_of_keep_first_fold. right.
  apply list_elem_of_bind in Hp as (y & Hp & Hy).
  apply list_elem_of_bind. exists y. split; [done | by apply Hsub].
Qed.

End ExpandInputsFunction.

Lemma expand_inputs_repeated_witness :
  let glob_glob := λ (m : gmap Path node) (s : string),
    if bool_decide (is_Some (m !! Path_of_string s)) then [s] else [] in
  let resolve := λ (_ : gmap Path node) (p : Path), p in
  let w := mkWorld {[ Path_of_string "a.zip" := File "PK" ]} [] [] in
  expand_inputs glob_glob resolve (["a.zip"; "*.zip"] ++ ["*.zip"; "a.zip"])%list w
  = expand_inputs glob_glob resolve ["a.zip"; "*.zip"] w.
Proof.
  intros glob_glob resolve w.
  apply (expand_inputs_repeated glob_glob resolve).
  intros x Hx.
  repeat (apply elem_of_cons in Hx as [->|Hx]);
    [right; left | left | by apply elem_of_nil in Hx].
Defined.

(** ** [main]: usage errors, dry runs and the size of a run *)

Section MainMore.

Variable zv : string → bool.
Variable glob_glob : gmap Path node → string → list string.
Variable resolve : gmap Path node → Path → Path.
Variable parse_args : list string → result Namespace.

(** The loop prints one line for each file it gets through and makes at
    most one [os.replace] call for each. *)
Lemma main_loop_size (args : Namespace) (files : list Path) :
  ∀ (w w' : World) (acc : bool) (r : result bool),
    main_loop zv args files acc w = Some (r, w') →
    (length (calls w') ≤ length (calls w) + length files)%nat
    ∧ (length (stdout w') ≤ length (stdout w) + length files)%nat
    ∧ (∀ b, r = Ok b →
         length (stdout w') = (length (stdout w) + length files)%nat).
Proof.
  induction files as [|f files IH]; intros w w' acc r.
  { simpl. munfold. intros [= <- <-]. repeat split; lia. }
  simpl. munfold.
  destruct (change_extension zv f (to args) (negb (no_verify args))
              (force args) (dry_run args) w) as [[[r1|e] w1]|] eqn:Hrun;
    [| |done].
  - fold (printed w1 r1.2). intros Hloop. apply IH in Hloop as (Hc & Ho & Hok).
    simpl in Hc, Ho, Hok. rewrite length_app in Ho, Hok. simpl in Ho, Hok.
    apply change_extension_effect in Hrun
      as [[-> _]|(_ & Hout & [dst Hcalls] & _)].
    + repeat split; [lia|lia|]. intros b Hb. rewrite (Hok b Hb). lia.
    + rewrite Hcalls, length_app in Hc. simpl in Hc. rewrite Hout in Ho, Hok.
      repeat split; [lia|lia|]. intros b Hb. rewrite (Hok b Hb). lia.
  - intros [= <- <-].
    apply change_extension_effect in Hrun
      as [[-> _]|(_ & _ & _ & ok & msg & [=])].
    repeat split; [lia|lia|done].
Qed.

(** X14.  With no input at all, positional or [--pattern], [main] prints the
    usage line and returns 2 without looking at the file system or at the
    target extension.  As soon as an input is given it never returns 2: a
    status it returns is 0 or 1. *)
Theorem main_usage_error (argv : list string) (args : Namespace) (w : World) :
  parse_args argv = Ok args →
  ((paths args ++ pattern args)%list = [] →
   main zv glob_glob resolve parse_args argv w
   = Some (Ok 2%Z,
           printed w "No inputs provided. Specify files or use --pattern."))
  ∧ ((paths args ++ pattern args)%list ≠ [] →
     ∀ code w', main zv glob_glob resolve parse_args argv w
                = Some (Ok code, w') →
                code = 0%Z ∨ code = 1%Z).
Proof.
  intros Hparse. split.
  - intros Hnil. unfold main. munfold. by rewrite Hparse, Hnil.
  - intros Hne code w'.
    destruct (main_enters_loop zv glob_glob resolve parse_args argv args w)
      as (files & _ & _ & ->); [done..|].
    munfold. destruct (main_loop zv args files true w) as [[[[]|e] w1]|];
      intros [= <- _]; auto.
Qed.

Lemma main_loop_dry_run (args : Namespace) (files : list Path) :
  dry_run args = true →
  ∀ (w : World) (acc : bool),
    ∃ r w', main_loop zv args files acc w = Some (r, w')
            ∧ fs w' = fs w ∧ calls w' = calls w.
Proof.
  intros Hdry. induction files as [|f files IH]; intros w acc.
  { by exists (Ok acc), w. }
  simpl. munfold. rewrite Hdry.
  destruct (change_extension_dry_run_total zv w f (to args)
              (negb (no_verify args)) (force args)) as [r ->].
  destruct r as [r|e]; [|by eexists _, _].
  fold (printed w r.2).
  destruct (IH (printed w r.2) (acc && r.1)) as (r' & w' & -> & Hfs & Hcalls).
  by exists r', w'.
Qed.

(** X15.  A whole run with [--dry-run] changes nothing: for any arguments
    that parse with [dry_run] set, any inputs and any target extension,
    [main] terminates (with a status or with the [ValueError] of a bad
    extension) and the file system is the one it started from; no
    [os.replace] call is made. *)
Theorem main_dry_run_changes_nothing (argv : list string) (args : Namespace)
    (w : World) :
  parse_args argv = Ok args → dry_run args = true →
  ∃ r w', main zv glob_glob resolve parse_args argv w = Some (r, w')
          ∧ fs w' = fs w ∧ calls w' = calls w.
Proof.
  intros Hparse Hdry.
  destruct (decide ((paths args ++ pattern args)%list = [])) as [Hnil|Hne].
  - eexists _, _. unfold main. munfold. rewrite Hparse. simpl.
    rewrite decide_True by done. done.
  - destruct (main_enters_loop zv glob_glob resolve parse_args argv args w)
      as (files & _ & _ & ->); [done..|].
    munfold.
    destruct (main_loop_dry_run args files Hdry w true)
      as (r & w' & -> & Hfs & Hcalls).
    destruct r; by eexists _, _.
Qed.

(** X16.  The size of a run.  Whatever [main] ends with, it has made at most
    one [os.replace] call for each file [expand_inputs] listed; when it
    returns a status it has printed exactly one line for each of them, and no
    file is listed twice. *)
Theorem main_one_line_per_file (argv : list string) (args : Namespace)
    (w w' : World) (r : result Z) :
  parse_args argv = Ok args → (paths args ++ pattern args)%list ≠ [] →
  main zv glob_glob resolve parse_args argv w = Some (r, w') →
  ∃ files,
    expand_inputs glob_glob resolve (paths args ++ pattern args)%list w
    = Some (Ok files, w)
    ∧ NoDup files
    ∧ (length (calls w') ≤ length (calls w) + length files)%nat
    ∧ (∀ code, r = Ok code →
         length (stdout w') = (length (stdout w) + length files)%nat).
Proof.
  intros Hparse Hne Hmain.
  destruct (expand_inputs_spec glob_glob resolve
              (paths args ++ pattern args)%list w) as (files & Hex & Hnd & Hfiles).
  exists files. split; [done|]. split; [done|].
  revert Hmain. unfold main. munfold. rewrite Hparse. simpl.
  rewrite decide_False by done. rewrite Hex.
  rewrite decide_False by (by apply Hfiles).
  destruct (main_loop zv args files true w) as [[[b|e] w1]|] eqn:Hloop;
    [| |done]; intros [= <- <-];
    apply main_loop_size in Hloop as (Hc & _ & Hok).
  - split; [done|]. intros code _. by apply (Hok b).
  - split; [done|]. by intros code.
Qed.

End MainMore.

Lemma main_usage_error_witness :
  let parse_args := λ argv : list string,
    Ok (mkNamespace [] [] (String.concat "" argv) false false false) in
  let w := mkWorld {[ Path_of_string "a.zip" := File "PK" ]} [] [] in
  main (String.prefix "PK") (λ _ _, []) (λ _ p, p) parse_args [] w
  = Some (Ok 2%Z, printed w "No inputs provided. Specify files or use --pattern.").
Proof.
  intros parse_args w.
  destruct (main_usage_error (String.prefix "PK") (λ _ _, []) (λ _ p, p)
              parse_args [] (mkNamespace [] [] "" false false false) w)
    as [H _]; [reflexivity|].
  apply H. reflexivity.
Defined.

Lemma main_dry_run_changes_nothing_witness :
  let parse_args := λ argv : list string,
    Ok (mkNamespace argv [] "ben" true false true) in
  let glob_glob := λ (m : gmap Path node) (s : string),
    if bool_decide (is_Some (m !! Path_of_string s)) then [s] else [] in
  let w := mkWorld {[ Path_of_string "a.zip" := File "PK";
                      Path_of_string "a.ben" := File "old" ]} [] [] in
  ∃ r w', main (String.prefix "PK") glob_glob (λ _ p, p) parse_args ["a.zip"] w
          = Some (r, w') ∧ fs w' = fs w.
Proof.
  intros parse_args glob_glob w.
  destruct (main_dry_run_changes_nothing (String.prefix "PK") glob_glob
              (λ _ p, p) parse_args ["a.zip"]
              (mkNamespace ["a.zip"] [] "ben" true false true) w)
    as (r & w' & Hrun & Hfs & _); [reflexivity..|].
  exists r, w'. split; [exact Hrun | exact Hfs].
Defined.

Lemma main_one_line_per_file_witness :
  let parse_args := λ argv : list string,
    Ok (mkNamespace argv [] "ben" false false false) in
  let w := mkWorld ∅ [] [] in
  ∃ files,
    expand_inputs (λ _ _, []) (λ _ p, p) ["*.zip"] w = Some (Ok files, w)
    ∧ NoDup files.
Proof.
  intros parse_args w.
  destruct (main_one_line_per_file (String.prefix "PK") (λ _ _, [])
              (λ _ p, p) parse_args ["*.zip"]
              (mkNamespace ["*.zip"] [] "ben" false false false) w
              (mkWorld ∅ [] ["Skip: '*.zip' is not a file."]) (Ok 1%Z))
    as (files & Hex & Hnd & _); [reflexivity|discriminate|by_evaluation|].
  exists files. split; [exact Hex | exact Hnd].
Defined.

(** ** [ensure_dot_prefix]: normal forms *)

Section EnsureDotPrefixMore.
Import StrFacts.

Lemma lstrip_all_space (r : string) :
  Str.all Str.isspace r = true → Str.lstrip r = "".
Proof.
  induction r as [|c r IH]; simpl; [done|].
  intros [Hc Hr]%andb_true_iff. rewrite Hc. by apply IH.
Qed.

Lemma rstrip_all_space (r : string) :
  Str.all Str.isspace r = true → Str.rstrip r = "".
Proof.
  induction r as [|c r IH]; simpl; [done|].
  intros [Hc Hr]%andb_true_iff. by rewrite (IH Hr), Hc.
Qed.

Lemma lstrip_app_space (l s : string) :
  Str.all Str.isspace l = true → Str.lstrip (l +:+ s) = Str.lstrip s.
Proof.
  induction l as [|c l IH]; sapp; [done|].
  intros [Hc Hl]%andb_true_iff. rewrite Hc. by apply IH.
Qed.

Lemma rstrip_app_space (s r : string) :
  Str.all Str.isspace r = true → Str.rstrip (s +:+ r) = Str.rstrip s.
Proof.
  intros Hr. induction s as [|c s IH]; sapp; [by apply rstrip_all_space|].
  by rewrite IH.
Qed.

Lemma lstrip_app (e r : string) :
  Str.lstrip (e +:+ r)
  = if decide (Str.lstrip e = "") then Str.lstrip r else Str.lstrip e +:+ r.
Proof.
  induction e as [|c e IH]; sapp; [done|].
  destruct (Str.isspace c); [done|]. by rewrite decide_False.
Qed.

Lemma strip_padded (l e r : string) :
  Str.all Str.isspace l = true → Str.all Str.isspace r = true →
  Str.strip (l +:+ e +:+ r) = Str.strip e.
Proof.
  intros Hl Hr. unfold Str.strip.
  rewrite lstrip_app_space, lstrip_app by done. case_decide as E.
  - by rewrite E, lstrip_all_space.
  - by apply rstrip_app_space.
Qed.

Lemma strip_fixed (t : string) :
  Str.lstrip t = t → Str.rstrip t = t → Str.strip t = t.
Proof. intros Hl Hr. unfold Str.strip. by rewrite Hl. Qed.

(** X17.  [ensure_dot_prefix] is idempotent: an extension it returns is a
    normal form, which it returns unchanged.  So [".ben"], ["ben"] and
    [" ben "] all normalize to an extension that normalizes to itself. *)
Theorem ensure_dot_prefix_idempotent (e r : string) :
  ensure_dot_prefix e = Ok r → ensure_dot_prefix r = Ok r.
Proof.
  destruct (strip_trimmed e) as [Hl Hr].
  unfold ensure_dot_prefix at 1. case_decide as Ht; [done|].
  destruct (Str.startswith (Str.strip e) ".") eqn:Hs; simpl; intros [= <-].
  - unfold ensure_dot_prefix. rewrite (strip_fixed _ Hl Hr).
    by rewrite decide_False, Hs.
  - assert (Str.strip ("." +:+ Str.strip e) = "." +:+ Str.strip e) as Hfix.
    { apply strip_fixed; [done|]. sapp. rewrite Hr.
      by destruct (Str.strip e). }
    unfold ensure_dot_prefix. rewrite Hfix.
    rewrite decide_False by done. by destruct (Str.strip e).
Qed.

Lemma ensure_dot_prefix_idempotent_witness :
  ensure_dot_prefix ".ben" = Ok ".ben".
Proof. apply (ensure_dot_prefix_idempotent " ben "). reflexivity. Defined.

(** X18.  Whitespace around the extension does not count: padding the
    argument with whitespace on either side gives the same result, success
    or [ValueError]. *)
Theorem ensure_dot_prefix_padding (l e r : string) :
  Str.all Str.isspace l = true → Str.all Str.isspace r = true →
  ensure_dot_prefix (l +:+ e +:+ r) = ensure_dot_prefix e.
Proof.
  intros Hl Hr. unfold ensure_dot_prefix. by rewrite strip_padded.
Qed.

Lemma ensure_dot_prefix_padding_witness :
  ensure_dot_prefix "  ben  " = ensure_dot_prefix "ben".
Proof.
  apply (ensure_dot_prefix_padding "  " "ben" "  "); reflexivity.
Defined.

End EnsureDotPrefixMore.

Lemma expand_inputs_members_witness :
  let glob_glob := λ (m : gmap Path node) (s : string),
    if bool_decide (is_Some (m !! Path_of_string s)) then [s] else [] in
  let resolve := λ (_ : gmap Path node) (p : Path), p in
  let w := mkWorld {[ Path_of_string "a.zip" := File "PK" ]} [] [] in
  ∃ files, expand_inputs glob_glob resolve ["a.zip"; "*.zip"] w
           = Some (Ok files, w)
           ∧ files = [Path_of_string "a.zip"; Path_of_string "*.zip"].
Proof.
  intros glob_glob resolve w.
  destruct (expand_inputs_members glob_glob resolve ["a.zip"; "*.zip"] w)
    as (files & Hrun & _ & _ & _ & Hsame).
  exists files. split; [exact Hrun|]. rewrite Hsame; [reflexivity|].
  vm_compute. apply NoDup_cons. split.
  - intros H. apply list_elem_of_singleton in H. discriminate.
  - apply NoDup_singleton.
Defined.

(** ** Names too long *)

(** On [limits] a name of more than 255 bytes makes [stat] fail, and
    [Path.exists] lets the error through. *)
Section NameTooLong.

Variable zv : string → bool.
Variable glob_glob : gmap Path node → string → list string.
Variable resolve : gmap Path node → Path → Path.
Variable parse_args : list string → result Namespace.

Lemma stat_error_limits (p : Path) :
  stat_error (OS := limits) p
  = if name_too_long p then Some ENAMETOOLONG else None.
Proof. reflexivity. Qed.

Lemma next_available_path_too_long (w : World) (p : Path) :
  name_too_long p = false → exists_in (fs w) p → wf_name p →
  name_too_long (candidate p 1) = true →
  next_available_path (os := limits) p w
  = Some (Raise (OSError1 ENAMETOOLONG (str (candidate p 1))), w).
Proof.
  intros Hshort Hex Hwf Hlong.
  unfold next_available_path, bind at 1, get_fs, next_available_path_fuel.
  unfold bind at 1. rewrite exists_eval, stat_error_limits, Hshort.
  rewrite bool_decide_eq_true_2 by done. simpl.
  unfold bind at 1, lift. rewrite with_name_candidate by done.
  unfold bind. by rewrite exists_eval, stat_error_limits, Hlong.
Qed.

(** X19.  The numbered name can be too long.  For a path that exists, with a
    well-formed name the operating system accepts, whose first candidate has
    a component of more than 255 bytes, [next_available_path] returns no
    path: the [OSError] for a name too long, which [candidate.exists()]
    raises, escapes, and the state is as it was. *)
Theorem next_available_path_name_too_long (w : World) (p : Path) :
  name_too_long p = false → exists_in (fs w) p → wf_name p →
  name_too_long (candidate p 1) = true →
  next_available_path (os := limits) p w
  = Some (Raise (OSError1 ENAMETOOLONG (str (candidate p 1))), w)
  ∧ ¬ ∃ q, next_available_path (os := limits) p w = Some (Ok q, w).
Proof.
  intros Hshort Hex Hwf Hlong.
  rewrite next_available_path_too_long by done.
  split; [done|]. by intros [q ?].
Qed.

(** X20.  [change_extension] reports that error.  In a real run without
    [overwrite] on a regular file that passes the gate, when the naive
    destination exists and its first candidate has a name too long, the
    outcome is [False] with the text of the [OSError]; nothing is renamed
    and no [os.replace] call is made. *)
Theorem change_extension_name_too_long (w : World) (p : Path)
    (c ext ext' : string) (verify_zip : bool) :
  fs w !! p = Some (File c) → wf_name p → name_too_long p = false →
  ensure_dot_prefix ext = Ok ext' → valid_suffix ext' →
  passes_gate zv verify_zip c →
  name_too_long (dest p ext') = false → exists_in (fs w) (dest p ext') →
  name_too_long (candidate (dest p ext') 1) = true →
  change_extension (os := limits) zv p ext verify_zip false false w
  = Some (Ok (false,
              "Error renaming '" +:+ str p +:+ "': "
              +:+ str_OSError1 ENAMETOOLONG
                    (str (candidate (dest p ext') 1))), w).
Proof.
  intros Hp Hwf Hshort He Hv Hgate Hdshort Hdex Hlong.
  rewrite (change_extension_ungated zv w p ext ext' c)
    by (done || by rewrite stat_error_limits, Hshort).
  unfold change_extension, is_zip_file, try_except_OSError.
  unfold bind at 1. rewrite is_file_eval, stat_error_limits, Hshort, Hp. simpl.
  unfold bind at 1, lift. rewrite He.
  unfold bind at 1, ret. unfold bind at 1.
  rewrite (with_suffix_ok p ext') by done.
  unfold bind at 1.
  rewrite next_available_path_too_long;
    [done | done | done | by apply wf_name_dest | done].
Qed.


End NameTooLong.

Lemma next_available_path_name_too_long_witness :
  let p := Path_of_string
             (String.string_of_list_ascii (replicate 251 "a"%char) +:+ ".ben") in
  let w := mkWorld {[ p := File "PK" ]} [] [] in
  ∃ q, next_available_path (os := limits) p w
       = Some (Raise (OSError1 ENAMETOOLONG q), w)
       ∧ String.length q = 257.
Proof.
  intros p w.
  destruct (next_available_path_name_too_long w p) as [H _];
    [by_evaluation..|].
  eexists. split; [exact H|]. vm_compute. reflexivity.
Defined.

Lemma change_extension_name_too_long_witness :
  let p := Path_of_string
             (String.string_of_list_ascii (replicate 251 "a"%char) +:+ ".zip") in
  let dst := Path_of_string
               (String.string_of_list_ascii (replicate 251 "a"%char) +:+ ".ben") in
  let w := mkWorld {[ p := File "PK-archive"; dst := File "old" ]} [] [] in
  ∃ msg, change_extension (os := limits) (String.prefix "PK") p ".ben" true
           false false w
         = Some (Ok (false, msg), w).
Proof.
  intros p dst w.
  eexists.
  apply (change_extension_name_too_long (String.prefix "PK") w p "PK-archive"
           ".ben" ".ben" true); by_evaluation.
Defined.

